(** * Stress-monitor training pipeline

    A shallow embedding of the feature-extraction and dataset-harmonisation
    code of [training/wesad_prepare.py], [training/merge_local_and_train.py]
    and [training/train_stress_model.py].

    Numeric model.  A NumPy [float64] is an extended rational: a finite
    value carried exactly in [Q], or one of [nan], [+inf], [-inf].  Rounding,
    overflow and signed zeros are not modelled; every comparison the code
    makes is evaluated on the exact value.  Library routines that have no
    rational closed form (square root, peak detection, the seeded shuffle)
    are interfaces, given as type classes. *)

From Stdlib Require Import String Ascii.
From Stdlib Require Import QArith Qround ZArith List Bool.
From Stdlib Require Import Lia Lqa Permutation Sorted.
Import ListNotations.

Set Implicit Arguments.

(** ** Exceptions *)

Inductive exn : Type :=
| ValueError (msg : string)
| LinAlgError (msg : string)
| SystemExit (msg : string).

Inductive result (A : Type) : Type :=
| Ok (a : A)
| Raise (e : exn).

Arguments Ok {A} a.
Arguments Raise {A} e.

Definition bind {A B : Type} (r : result A) (k : A -> result B) : result B :=
  match r with
  | Ok a => k a
  | Raise e => Raise e
  end.

Notation "x <- r ;; k" := (bind r (fun x => k))
  (at level 61, r at next level, right associativity).

Definition is_ok {A : Type} (r : result A) : bool :=
  match r with Ok _ => true | Raise _ => false end.

(** ** float64 as extended rationals *)

Inductive float64 : Type :=
| Fin (q : Q)
| NaN
| PosInf
| NegInf.

Definition Qltb (x y : Q) : bool :=
  match (x ?= y)%Q with Lt => true | _ => false end.

Definition isfinite (x : float64) : bool :=
  match x with Fin _ => true | _ => false end.

Definition isnan (x : float64) : bool :=
  match x with NaN => true | _ => false end.

Definition isinf (x : float64) : bool :=
  match x with PosInf | NegInf => true | _ => false end.

(** Equality of floats up to the representation of the rational. *)
Definition feq (x y : float64) : Prop :=
  match x, y with
  | Fin a, Fin b => (a == b)%Q
  | NaN, NaN | PosInf, PosInf | NegInf, NegInf => True
  | _, _ => False
  end.

Definition fneg (x : float64) : float64 :=
  match x with
  | Fin a => Fin (- a)
  | NaN => NaN
  | PosInf => NegInf
  | NegInf => PosInf
  end.

Definition fadd (x y : float64) : float64 :=
  match x, y with
  | NaN, _ | _, NaN => NaN
  | Fin a, Fin b => Fin (a + b)
  | PosInf, NegInf | NegInf, PosInf => NaN
  | PosInf, _ | _, PosInf => PosInf
  | NegInf, _ | _, NegInf => NegInf
  end.

Definition fsub (x y : float64) : float64 := fadd x (fneg y).

(** An infinity of the sign of [s], or [nan] when [s] is zero. *)
Definition inf_of_sign (s : Q) (pos : bool) : float64 :=
  match (s ?= 0)%Q with
  | Eq => NaN
  | Gt => if pos then PosInf else NegInf
  | Lt => if pos then NegInf else PosInf
  end.

Definition fmul (x y : float64) : float64 :=
  match x, y with
  | NaN, _ | _, NaN => NaN
  | Fin a, Fin b => Fin (a * b)
  | Fin a, PosInf | PosInf, Fin a => inf_of_sign a true
  | Fin a, NegInf | NegInf, Fin a => inf_of_sign a false
  | PosInf, PosInf | NegInf, NegInf => PosInf
  | PosInf, NegInf | NegInf, PosInf => NegInf
  end.

(** Array division: a zero divisor gives an infinity (or [nan] for 0/0),
    it does not raise. *)
Definition fdiv (x y : float64) : float64 :=
  match x, y with
  | NaN, _ | _, NaN => NaN
  | Fin a, Fin b =>
      if Qeq_bool b 0 then inf_of_sign a true else Fin (a / b)
  | Fin _, _ => Fin 0
  | PosInf, Fin b => if Qltb b 0 then NegInf else PosInf
  | NegInf, Fin b => if Qltb b 0 then PosInf else NegInf
  | _, _ => NaN
  end.

(** [x < y]; false whenever an operand is [nan]. *)
Definition fltb (x y : float64) : bool :=
  match x, y with
  | Fin a, Fin b => Qltb a b
  | NegInf, Fin _ | NegInf, PosInf | Fin _, PosInf => true
  | _, _ => false
  end.

Definition fgtb (x y : float64) : bool := fltb y x.

(** The interface to the numerical runtime: [np.sqrt] on a non-negative
    finite value. *)
Class Numerics : Type := { sqrt_nonneg : Q -> Q }.

Definition fsqrt `{Numerics} (x : float64) : float64 :=
  match x with
  | Fin a => if Qltb a 0 then NaN else Fin (sqrt_nonneg a)
  | NaN | NegInf => NaN
  | PosInf => PosInf
  end.

(** ** The NumPy primitives the code calls *)

Module np.

Definition sum (a : list float64) : float64 :=
  fold_right fadd (Fin 0) a.

Definition size {A : Type} (a : list A) : float64 :=
  Fin (inject_Z (Z.of_nat (length a))).

(** [np.mean]: [nan] on an empty array (0/0). *)
Definition mean (a : list float64) : float64 :=
  fdiv (sum a) (size a).

Definition minimum (x y : float64) : float64 :=
  match x, y with
  | NaN, _ | _, NaN => NaN
  | _, _ => if fltb y x then y else x
  end.

Definition maximum (x y : float64) : float64 :=
  match x, y with
  | NaN, _ | _, NaN => NaN
  | _, _ => if fltb x y then y else x
  end.

(** [np.min] and [np.max] of a non-empty array. *)
Definition amin (x : float64) (a : list float64) : float64 :=
  fold_left minimum a x.

Definition amax (x : float64) (a : list float64) : float64 :=
  fold_left maximum a x.

(** [np.std]: population standard deviation. *)
Definition std `{Numerics} (a : list float64) : float64 :=
  let m := mean a in
  fsqrt (mean (map (fun v => let d := fsub v m in fmul d d) a)).

(** [np.diff] on floats and on integer index arrays. *)
Fixpoint diff (a : list float64) : list float64 :=
  match a with
  | x :: (y :: _) as t => fsub y x :: diff t
  | _ => []
  end.

Fixpoint diffZ (a : list Z) : list Z :=
  match a with
  | x :: (y :: _) as t => (y - x)%Z :: diffZ t
  | _ => []
  end.

(** [np.arange(n, dtype=float64)]. *)
Definition arange (n : nat) : list float64 :=
  map (fun i => Fin (inject_Z (Z.of_nat i))) (seq 0 n).

(** [np.unique(a, return_counts=True)]: the distinct values in
    increasing order, each with its number of occurrences. *)
Fixpoint unique_insert (v : Z) (acc : list (Z * nat)) : list (Z * nat) :=
  match acc with
  | [] => [(v, 1%nat)]
  | (w, c) :: t =>
      if (v <? w)%Z then (v, 1%nat) :: (w, c) :: t
      else if (v =? w)%Z then (w, S c) :: t
      else (w, c) :: unique_insert v t
  end.

Definition unique_table (a : list Z) : list (Z * nat) :=
  fold_right unique_insert [] a.

Definition unique_counts (a : list Z) : list Z * list nat :=
  (map fst (unique_table a), map snd (unique_table a)).

(** [np.argmax]: the index of the first occurrence of the maximum; it
    raises on an empty array. *)
Fixpoint argmax_from (best_i best i : nat) (l : list nat) : nat :=
  match l with
  | [] => best_i
  | c :: t =>
      if (best <? c)%nat then argmax_from i c (S i) t
      else argmax_from best_i best (S i) t
  end.

Definition argmax (l : list nat) : result nat :=
  match l with
  | [] => Raise (ValueError "attempt to get argmax of an empty sequence")
  | c :: t => Ok (argmax_from 0 c 1 t)
  end.

(** [np.polyfit(t, x, deg=1)]: the least-squares line through the points
    [(t_i, x_i)], as the solution of its normal equations; the result is
    [(slope, intercept)].  The underlying solver rejects non-finite data. *)
Definition polyfit1 (t x : list float64) : result (float64 * float64) :=
  if forallb isfinite t && forallb isfinite x then
    let n := size t in
    let st := sum t in
    let sx := sum x in
    let stt := sum (map (fun v => fmul v v) t) in
    let stx := sum (map (fun p => fmul (fst p) (snd p)) (combine t x)) in
    let m := fdiv (fsub (fmul n stx) (fmul st sx))
                  (fsub (fmul n stt) (fmul st st)) in
    Ok (m, fdiv (fsub sx (fmul m st)) n)
  else Raise (LinAlgError "SVD did not converge in Linear Least Squares").

End np.

(** [scipy.signal.find_peaks(x, distance=d, prominence=p)]: the indices of
    the accepted local maxima, in increasing order. *)
Class SignalLib : Type := { find_peaks : list float64 -> Z -> Q -> list Z }.

(** Python slicing [a[lo:hi]] with non-negative bounds. *)
Definition slice {A : Type} (a : list A) (lo hi : nat) : list A :=
  skipn lo (firstn hi a).

(** * training/wesad_prepare.py *)

Module wesad_prepare.

Section Extractor.
Context `{Numerics} `{SignalLib}.

Record stats : Type := mk_stats {
  avg : float64; min : float64; max : float64; std : float64 }.

Definition _safe_stats (x : list float64) : stats :=
  match x with
  | [] => mk_stats NaN NaN NaN NaN
  | x0 :: xs => mk_stats (np.mean x) (np.amin x0 xs) (np.amax x0 xs) (np.std x)
  end.

Definition _slope (x : list float64) : result float64 :=
  if (length x <? 2)%nat then Ok (Fin 0)
  else
    let t := np.arange (length x) in
    mb <- np.polyfit1 t x ;;
    Ok (fst mb).

Record hr_features : Type := mk_hr {
  bpm_avg : float64; bpm_min : float64; bpm_max : float64;
  bpm_std : float64; hrv_rmssd : float64; hrv_sdnn : float64 }.

(** The dictionary returned on each of the three insufficiency exits. *)
Definition undefined_hr : hr_features := mk_hr NaN NaN NaN NaN NaN NaN.

(** [int(max(1, fs * 0.4))]. *)
Definition peak_distance (fs : Z) : Z :=
  let x := (inject_Z fs * 0.4)%Q in
  if Qltb 1 x then Qfloor x else 1%Z.

(** [rr = np.diff(peaks) / fs]: the inter-beat intervals in seconds. *)
Definition rr_seconds (peaks : list Z) (fs : Z) : list float64 :=
  map (fun d => fdiv (Fin (inject_Z d)) (Fin (inject_Z fs))) (np.diffZ peaks).

(** [rr[(rr > 0.3) & (rr < 1.8)]]. *)
Definition rr_plausible (rr : list float64) : list float64 :=
  filter (fun r => fgtb r (Fin 0.3) && fltb r (Fin 1.8)) rr.

Definition _hr_features_from_bvp (bvp : list float64) (fs : Z) : hr_features :=
  if (Z.of_nat (length bvp) <? fs)%Z then undefined_hr
  else
    let m := np.mean bvp in
    let centered := map (fun v => fsub v m) bvp in
    let scale := np.std centered in
    let centered :=
      if fgtb scale (Fin 1e-9) then map (fun v => fdiv v scale) centered
      else centered in
    let distance := peak_distance fs in
    let peaks := find_peaks centered distance 0.2 in
    if (length peaks <? 2)%nat then undefined_hr
    else
      let rr := rr_plausible (rr_seconds peaks fs) in
      match rr with
      | [] | [_] => undefined_hr
      | r0 :: _ =>
          let bpm := map (fun r => fdiv (Fin 60.0) r) rr in
          let rr_ms := map (fun r => fmul r (Fin 1000.0)) rr in
          let diff_rr := np.diff rr_ms in
          let rmssd :=
            match diff_rr with
            | [] => NaN
            | _ => fsqrt (np.mean (map (fun d => fmul d d) diff_rr))
            end in
          let sdnn := match rr_ms with [] => NaN | _ => np.std rr_ms end in
          let b0 := fdiv (Fin 60.0) r0 in
          mk_hr (np.mean bpm) (np.amin b0 (tl bpm)) (np.amax b0 (tl bpm))
                (np.std bpm) rmssd sdnn
      end.

End Extractor.

Definition _majority_label (labels : list Z) : result Z :=
  let '(vals, counts) := np.unique_counts labels in
  i <- np.argmax counts ;;
  Ok (nth i vals 0%Z).

(** The closure [label_for_window] of [build_subject_rows], over the
    subject's label stream sampled at [label_fs]. *)
Definition label_fs : Z := 700.

Definition label_for_window (label : list Z) (start_idx end_idx sig_fs : Z)
  : result Z :=
  let t0 := (inject_Z start_idx / inject_Z sig_fs)%Q in
  let t1 := (inject_Z end_idx / inject_Z sig_fs)%Q in
  let l0 := Z.max 0 (Qfloor (t0 * inject_Z label_fs)) in
  let l1 := Z.min (Z.of_nat (length label)) (Qceiling (t1 * inject_Z label_fs)) in
  if (l1 <=? l0)%Z then
    Ok (if (l0 <? Z.of_nat (length label))%Z then nth (Z.to_nat l0) label 0%Z
        else (-1)%Z)
  else _majority_label (slice label (Z.to_nat l0) (Z.to_nat l1)).

(** One row of the table written by [main]. *)
Record row : Type := mk_row {
  subject : string;
  window_start_s : float64;
  window_end_s : float64;
  label : Z;
  features : list float64 }.

(** [df.replace([np.inf, -np.inf], np.nan)] on one cell. *)
Definition replace_inf (x : float64) : float64 :=
  if isinf x then NaN else x.

Definition replace_inf_row (r : row) : row :=
  mk_row (subject r) (replace_inf (window_start_s r))
         (replace_inf (window_end_s r)) (label r)
         (map replace_inf (features r)).

Definition has_na (r : row) : bool :=
  isnan (window_start_s r) || isnan (window_end_s r)
  || existsb isnan (features r).

(** Lines 207-209 of [main]: scrub the infinities, then [dropna()]. *)
Definition collate (all_rows : list row) : list row :=
  filter (fun r => negb (has_na r)) (map replace_inf_row all_rows).

End wesad_prepare.

(** ** Strings: [str.strip()] and [str.lower()] on ASCII text *)

Definition is_space (c : ascii) : bool :=
  let n := nat_of_ascii c in
  ((9 <=? n) && (n <=? 13) || (28 <=? n) && (n <=? 32))%nat.

Definition lower_ascii (c : ascii) : ascii :=
  let n := nat_of_ascii c in
  if ((65 <=? n) && (n <=? 90))%nat then ascii_of_nat (n + 32) else c.

Fixpoint lstrip (l : list ascii) : list ascii :=
  match l with
  | c :: t => if is_space c then lstrip t else l
  | [] => []
  end.

Definition strip (s : string) : string :=
  string_of_list_ascii
    (rev (lstrip (rev (lstrip (list_ascii_of_string s))))).

Definition lower (s : string) : string :=
  string_of_list_ascii (map lower_ascii (list_ascii_of_string s)).

Definition contains (cols : list string) (c : string) : bool :=
  existsb (String.eqb c) cols.

(** ** Tables shared by the merge and training scripts *)

(** A row of a feature table: the subject (missing when the cell is empty),
    the label and the features in the order of [FEATURE_COLUMNS]. *)
Record feature_row : Type := mk_feature_row {
  subject : option string;
  label : float64;
  features : list float64 }.

Definition replace_inf (x : float64) : float64 :=
  if isinf x then NaN else x.

Definition fillna (v : float64) (x : float64) : float64 :=
  if isnan x then v else x.

(** * The group-aware splitter of the learning library

    [GroupShuffleSplit(n_splits=1, test_size, random_state)] as the library
    defines it: the distinct groups are shuffled by the seeded generator,
    the first [n_test] of them form the evaluation groups and the following
    [n_train] the training groups; a row goes where its group went. *)

(** The seeded generator: [permutation seed n] is a shuffle of
    [0, ..., n-1]. *)
Class RandomState : Type := {
  permutation : Z -> nat -> list nat;
  permutation_shuffles :
    forall seed n, Permutation (permutation seed n) (seq 0 n) }.

Module sklearn.

(** The sizes of the two sides for a fractional [test_size]. *)
Definition validate_shuffle_split (n_samples : nat) (test_size : Q)
  : result (nat * nat) :=
  if Qle_bool test_size 0 || Qle_bool 1 test_size then
    Raise (ValueError "test_size should be in the (0, 1) range")
  else
    let n_test :=
      Z.to_nat (Qceiling (test_size * inject_Z (Z.of_nat n_samples))) in
    let n_train := (n_samples - n_test)%nat in
    if (n_train =? 0)%nat then
      Raise (ValueError "the resulting train set will be empty")
    else Ok (n_train, n_test).

(** [np.unique(groups, return_inverse=True)]. *)
Fixpoint insert_unique (g : string) (classes : list string) : list string :=
  match classes with
  | [] => [g]
  | c :: t =>
      match String.compare g c with
      | Lt => g :: c :: t
      | Eq => c :: t
      | Gt => c :: insert_unique g t
      end
  end.

Definition classes_of (groups : list string) : list string :=
  fold_right insert_unique [] groups.

Fixpoint index_of (g : string) (classes : list string) : nat :=
  match classes with
  | [] => 0
  | c :: t => if String.eqb g c then 0 else S (index_of g t)
  end.

(** [np.flatnonzero(np.isin(group_indices, chosen))]. *)
Definition rows_of (group_indices chosen : list nat) : list nat :=
  map fst
    (filter (fun ig => existsb (Nat.eqb (snd ig)) chosen)
            (combine (seq 0 (length group_indices)) group_indices)).

Section Split.
Context `{RandomState}.

Definition group_shuffle_split (groups : list string) (test_size : Q)
  (random_state : Z) : result (list nat * list nat) :=
  let classes := classes_of groups in
  let group_indices := map (fun g => index_of g classes) groups in
  sizes <- validate_shuffle_split (length classes) test_size ;;
  let '(n_train, n_test) := sizes in
  let perm := permutation random_state (length classes) in
  let group_test := slice perm 0 n_test in
  let group_train := slice perm n_test (n_test + n_train) in
  Ok (rows_of group_indices group_train, rows_of group_indices group_test).

End Split.

End sklearn.

(** * training/merge_local_and_train.py *)

Module merge_local_and_train.

Definition FEATURE_COLUMNS : list string :=
  [ "bpm_avg"; "bpm_min"; "bpm_max"; "bpm_std"; "hrv_rmssd"; "hrv_sdnn";
    "gsr_avg"; "gsr_min"; "gsr_max"; "gsr_std"; "gsr_slope";
    "temp_avg"; "temp_min"; "temp_max"; "temp_std"; "temp_slope" ]%string.

Definition LOCAL_REQUIRED : list string :=
  [ "time_iso"; "ts"; "bpm_avg"; "gsr_avg"; "temp_avg"; "label" ]%string.

(** The trailing window [arr[max(0, i - win + 1) : i + 1]]. *)
Definition window (arr : list float64) (i win : nat) : list float64 :=
  slice arr (i + 1 - win) (i + 1).

(** The body of the loop of [_rolling_slope] on one window [y]. *)
Definition slope_of_window (y : list float64) : float64 :=
  if (length y <? 2)%nat then Fin 0.0
  else
    let x := np.arange (length y) in
    let x_mean := np.mean x in
    let y_mean := np.mean y in
    let den := np.sum (map (fun v => let d := fsub v x_mean in fmul d d) x) in
    if fltb den (Fin 1e-9) then Fin 0.0
    else
      fdiv (np.sum (map (fun p => fmul (fsub (fst p) x_mean)
                                       (fsub (snd p) y_mean))
                        (combine x y)))
           den.

Definition _rolling_slope (values : list float64) (win : nat) : list float64 :=
  map (fun i => slope_of_window (window values i win))
      (seq 0 (length values)).

(** [np.isfinite(w) & (w > 1e-6)]. *)
Definition valid_rate (w : float64) : bool :=
  isfinite w && fgtb w (Fin 1e-6).

Section Rolling.
Context `{Numerics}.

Definition rmssd_of_window (w : list float64) : float64 :=
  let w := filter valid_rate w in
  if (length w <? 3)%nat then Fin 0.0
  else
    let rr := map (fun v => fdiv (Fin 60000.0) v) w in
    let d := np.diff rr in
    match d with
    | [] => Fin 0.0
    | _ => fsqrt (np.mean (map (fun v => fmul v v) d))
    end.

Definition _rmssd_from_bpm_series (bpm : list float64) (win : nat)
  : list float64 :=
  map (fun i => rmssd_of_window (window bpm i win)) (seq 0 (length bpm)).

Definition sdnn_of_window (w : list float64) : float64 :=
  let w := filter valid_rate w in
  if (length w <? 2)%nat then Fin 0.0
  else
    let rr := map (fun v => fdiv (Fin 60000.0) v) w in
    np.std rr.

Definition _sdnn_from_bpm_series (bpm : list float64) (win : nat)
  : list float64 :=
  map (fun i => sdnn_of_window (window bpm i win)) (seq 0 (length bpm)).

(** [Series.rolling(win, min_periods=k)]: the aggregate of the valid
    observations of each trailing window, or [nan] when there are fewer
    than [k] of them.  Missing and infinite cells are not observations. *)
Definition rolling (win min_periods : nat) (agg : list float64 -> float64)
  (s : list float64) : list float64 :=
  map (fun i =>
         let obs := filter isfinite (window s i win) in
         if (length obs <? min_periods)%nat then NaN else agg obs)
      (seq 0 (length s)).

Definition agg_min (obs : list float64) : float64 :=
  match obs with [] => NaN | x :: t => np.amin x t end.

Definition agg_max (obs : list float64) : float64 :=
  match obs with [] => NaN | x :: t => np.amax x t end.

(** Sample standard deviation (one delta degree of freedom). *)
Definition agg_std (obs : list float64) : float64 :=
  let m := np.mean obs in
  let ss := np.sum (map (fun v => let d := fsub v m in fmul d d) obs) in
  fsqrt (fdiv ss (fsub (np.size obs) (Fin 1))).

End Rolling.

(** One row of a session file once [to_datetime] and [to_numeric] have
    coerced its cells: an unparseable timestamp is [None], an unparseable
    number is [nan]; the label is its text. *)
Record local_row : Type := mk_local_row {
  time_iso : option Z;
  ts : float64;
  bpm_avg : float64;
  gsr_avg : float64;
  temp_avg : float64;
  label_text : string }.

Record session_csv : Type := mk_session {
  stem : string;
  columns : list string;
  data : list local_row }.

Definition set_gsr_avg (r : local_row) (v : float64) : local_row :=
  mk_local_row (time_iso r) (ts r) (bpm_avg r) v (temp_avg r) (label_text r).

Definition set_temp_avg (r : local_row) (v : float64) : local_row :=
  mk_local_row (time_iso r) (ts r) (bpm_avg r) (gsr_avg r) v (label_text r).

(** Order on the non-missing floats: [-inf], the finite values, [+inf]. *)
Definition fleb (x y : float64) : bool := negb (fltb y x).

Fixpoint insert_sorted {A : Type} (leb : A -> A -> bool) (x : A) (l : list A)
  : list A :=
  match l with
  | [] => [x]
  | y :: t => if leb x y then x :: y :: t else y :: insert_sorted leb x t
  end.

(** A stable sort. *)
Definition sort_by {A : Type} (leb : A -> A -> bool) (l : list A) : list A :=
  fold_right (insert_sorted leb) [] l.

(** [Series.median(skipna=True)]. *)
Definition median (col : list float64) : float64 :=
  let v := sort_by fleb (filter (fun x => negb (isnan x)) col) in
  let n := length v in
  if (n =? 0)%nat then NaN
  else if Nat.odd n then nth (n / 2) v NaN
  else fdiv (fadd (nth (n / 2 - 1) v NaN) (nth (n / 2) v NaN)) (Fin 2).

Definition _normalize_local_units (df : list local_row) : list local_row :=
  let out := df in
  let out :=
    if fgtb (median (map gsr_avg out)) (Fin 50)
    then map (fun r => set_gsr_avg r (fdiv (gsr_avg r) (Fin 1000.0))) out
    else out in
  let out :=
    if fgtb (median (map temp_avg out)) (Fin 80)
    then map (fun r => set_temp_avg r (fdiv (temp_avg r) (Fin 10.0))) out
    else out in
  let out :=
    if fgtb (median (map temp_avg out)) (Fin 80)
    then map (fun r => set_temp_avg r (fdiv (temp_avg r) (Fin 10.0))) out
    else out in
  out.

(** [sort_values(["time_iso", "ts"], na_position="last")]. *)
Definition cmp_time (a b : option Z) : comparison :=
  match a, b with
  | Some x, Some y => (x ?= y)%Z
  | Some _, None => Lt
  | None, Some _ => Gt
  | None, None => Eq
  end.

Definition cmp_na_last (a b : float64) : comparison :=
  match a, b with
  | NaN, NaN => Eq
  | NaN, _ => Gt
  | _, NaN => Lt
  | _, _ => if fltb a b then Lt else if fltb b a then Gt else Eq
  end.

Definition row_leb (r1 r2 : local_row) : bool :=
  match cmp_time (time_iso r1) (time_iso r2) with
  | Lt => true
  | Gt => false
  | Eq => match cmp_na_last (ts r1) (ts r2) with Gt => false | _ => true end
  end.

Definition label_map : list (string * Z) :=
  [ ("rest", 0); ("recovery", 0); ("unlabeled", 0);
    ("stress_task", 1); ("stress", 1) ]%string%Z.

Fixpoint lookup (k : string) (m : list (string * Z)) : option Z :=
  match m with
  | [] => None
  | (k', v) :: t => if String.eqb k k' then Some v else lookup k t
  end.

Definition label_bin (r : local_row) : option Z :=
  lookup (lower (strip (label_text r))) label_map.

Definition win : nat := 8.

Definition nth_cell (col : list float64) (i : nat) : float64 := nth i col NaN.

Section Build.
Context `{Numerics}.

(** The sixteen feature columns of [out], in the order of
    [FEATURE_COLUMNS], computed from the cleaned session [df]. *)
Definition feature_columns (df : list local_row) : list (list float64) :=
  let bpm := map bpm_avg df in
  let gsr := map gsr_avg df in
  let temp := map temp_avg df in
  [ bpm;
    rolling win 1 agg_min bpm;
    rolling win 1 agg_max bpm;
    map (fillna (Fin 0.0)) (rolling win 2 agg_std bpm);
    _rmssd_from_bpm_series bpm win;
    _sdnn_from_bpm_series bpm win;
    gsr;
    rolling win 1 agg_min gsr;
    rolling win 1 agg_max gsr;
    map (fillna (Fin 0.0)) (rolling win 2 agg_std gsr);
    _rolling_slope gsr win;
    temp;
    rolling win 1 agg_min temp;
    rolling win 1 agg_max temp;
    map (fillna (Fin 0.0)) (rolling win 2 agg_std temp);
    _rolling_slope temp win ].

Definition build_local_features (local_csv : session_csv)
  : result (list feature_row) :=
  let missing :=
    filter (fun c => negb (contains (columns local_csv) c)) LOCAL_REQUIRED in
  match missing with
  | _ :: _ => Raise (ValueError (stem local_csv ++ ".csv missing columns"))
  | [] =>
      let df := sort_by row_leb (data local_csv) in
      let df := _normalize_local_units df in
      let df :=
        filter (fun r => negb (isnan (bpm_avg r)) && negb (isnan (gsr_avg r))
                         && negb (isnan (temp_avg r))
                         && match label_bin r with Some _ => true
                                                 | None => false end) df in
      let cols := feature_columns df in
      let out :=
        map (fun ir =>
               mk_feature_row
                 (Some ("LOCAL_" ++ stem local_csv)%string)
                 (match label_bin (snd ir) with
                  | Some b => Fin (inject_Z b) | None => NaN end)
                 (map (fun col => nth_cell col (fst ir)) cols))
            (combine (seq 0 (length df)) df) in
      let out :=
        map (fun r => mk_feature_row (subject r) (label r)
                                     (map replace_inf (features r))) out in
      Ok (filter (fun r => negb (existsb isnan (features r))) out)
  end.

(** The loop of [main] over the session files: the first exception ends it. *)
Fixpoint local_frames (local_files : list session_csv)
  : result (list (list feature_row)) :=
  match local_files with
  | [] => Ok []
  | f :: rest =>
      frame <- build_local_features f ;;
      frames <- local_frames rest ;;
      Ok (frame :: frames)
  end.

Definition is_defined (r : feature_row) : bool :=
  match subject r with Some _ => true | None => false end
  && negb (isnan (label r))
  && forallb (fun x => negb (isnan x)) (features r).

(** Line 262: [replace([inf, -inf], nan)] on every column, then
    [dropna(subset=FEATURE_COLUMNS + ["label", "subject"])]. *)
Definition harmonize (combined : list feature_row) : list feature_row :=
  filter is_defined
    (map (fun r => mk_feature_row (subject r) (replace_inf (label r))
                                  (map replace_inf (features r)))
         combined).

(** [main] up to the table it writes and trains on.  [wesad_columns] are
    the columns of the reference table as read; [wesad_df] is its selection
    of subject, label and the feature columns. *)
Definition main (wesad_columns : list string) (wesad_df : list feature_row)
  (local_files : list session_csv) : result (list feature_row) :=
  let needed := ("subject" :: "label" :: FEATURE_COLUMNS)%string in
  match filter (fun c => negb (contains wesad_columns c)) needed with
  | _ :: _ => Raise (SystemExit "WESAD features missing columns")
  | [] =>
      match local_files with
      | [] => Raise (SystemExit "No local CSV files")
      | _ =>
          frames <- local_frames local_files ;;
          let local_df := concat frames in
          let combined := wesad_df ++ local_df in
          Ok (harmonize combined)
      end
  end.

End Build.

(** [df["subject"].astype(str)]. *)
Definition group_of (r : feature_row) : string :=
  match subject r with Some s => s | None => "nan"%string end.

(** Fancy indexing [a[idx]]. *)
Definition take {A : Type} (d : A) (a : list A) (idx : list nat) : list A :=
  map (fun i => nth i a d) idx.

Section Train.
Context `{RandomState}.

(** The partition made by [train_combined]: the groups of the training
    rows and of the evaluation rows, and the training sample weights. *)
Record partition : Type := mk_partition {
  train_idx : list nat;
  test_idx : list nat;
  g_train : list string;
  g_test : list string;
  sample_weight : list Q }.

Definition train_combined_split (df : list feature_row) (test_size : Q)
  (random_state : Z) (local_weight : Q) : result partition :=
  let groups := map group_of df in
  tt <- sklearn.group_shuffle_split groups test_size random_state ;;
  let '(train_idx, test_idx) := tt in
  let g_train := take ""%string groups train_idx in
  let g_test := take ""%string groups test_idx in
  let sample_weight :=
    map (fun s => if String.prefix "LOCAL_" s then local_weight else 1%Q)
        g_train in
  Ok (mk_partition train_idx test_idx g_train g_test sample_weight).

End Train.

End merge_local_and_train.

(** * training/train_stress_model.py *)

Module train_stress_model.

Section Train.
Context `{RandomState}.

(** The split made by [main] on the cleaned table: the index arrays and
    the subjects reported on each side. *)
Definition main_split (df : list feature_row) (test_size : Q)
  (random_state : Z) : result ((list nat * list nat) * (list string * list string)) :=
  let groups := map merge_local_and_train.group_of df in
  tt <- sklearn.group_shuffle_split groups test_size random_state ;;
  let '(train_idx, test_idx) := tt in
  Ok ((train_idx, test_idx),
      (merge_local_and_train.take ""%string groups train_idx,
       merge_local_and_train.take ""%string groups test_idx)).

End Train.

End train_stress_model.

(** * Instances used to run the definitions on concrete inputs *)

(** A shuffle that reverses the order, whatever the seed. *)
Definition reversing_state : RandomState :=
  {| permutation := fun _ n => rev (seq 0 n);
     permutation_shuffles :=
       fun _ n => Permutation_sym (Permutation_rev (seq 0 n)) |}.

(** A square root good to six decimals, for evaluation only. *)
Definition sqrt_micro (q : Q) : Q :=
  (Z.sqrt (Qfloor (q * 1000000000000)) # 1000000)%Q.

Definition micro_numerics : Numerics := {| sqrt_nonneg := sqrt_micro |}.

(** A detector that reports a given list of peak indices. *)
Definition peaks_at (ps : list Z) : SignalLib :=
  {| find_peaks := fun _ _ _ => ps |}.

(** The strict local maxima of a signal: the indices whose sample exceeds
    both neighbours. *)
Fixpoint local_maxima_from (i : Z) (x : list float64) : list Z :=
  match x with
  | a :: ((b :: c :: _) as t) =>
      if fltb a b && fltb c b then (i + 1)%Z :: local_maxima_from (i + 1) t
      else local_maxima_from (i + 1) t
  | _ => []
  end.

(** A detector that reports the strict local maxima.  On a signal without
    flat tops, whose strict local maxima are at least [distance] samples
    apart and rise at least [prominence] above the lowest sample, these
    are the peaks the library's detector returns. *)
Definition strict_maxima : SignalLib :=
  {| find_peaks := fun x _ _ => local_maxima_from 0 x |}.

(** Four seconds of a pulse wave sampled at 5 Hz: twenty-one samples at
    rest with a beat at samples 1, 10 and 19. *)
Definition pulse_train : list float64 :=
  map (fun i => if existsb (Nat.eqb i) [1; 10; 19]%nat then Fin 1 else Fin 0)
      (seq 0 21).

(** The signal handed to the peak detector by [_hr_features_from_bvp]
    (lines 61-64): centred, and divided by its standard deviation when
    that exceeds 1e-9. *)
Definition normalized `{Numerics} (bvp : list float64) : list float64 :=
  let m := np.mean bvp in
  let centered := map (fun v => fsub v m) bvp in
  let scale := np.std centered in
  if fgtb scale (Fin 1e-9) then map (fun v => fdiv v scale) centered
  else centered.

(** [pulse_train] as the detector receives it, evaluated once. *)
Definition pulse_norm : list float64 :=
  Eval vm_compute in (@normalized micro_numerics pulse_train).

(** * Facts about the float model *)

Lemma Qltb_lt (x y : Q) : Qltb x y = true <-> (x < y)%Q.
Proof.
  unfold Qltb. rewrite Qlt_alt. destruct (x ?= y)%Q; split; congruence.
Qed.

Lemma Qltb_ge (x y : Q) : Qltb x y = false <-> (y <= x)%Q.
Proof.
  unfold Qltb. destruct (x ?= y)%Q eqn:E; split; intro Hc; try congruence.
  - apply Qeq_alt in E. rewrite E. apply Qle_refl.
  - apply Qlt_alt in E. exfalso. apply (Qlt_not_le _ _ E Hc).
  - apply Qgt_alt in E. apply Qlt_le_weak. exact E.
Qed.

#[global] Instance Qltb_comp : Proper (Qeq ==> Qeq ==> eq) Qltb.
Proof.
  intros a b Hab c d Hcd. unfold Qltb. now rewrite Hab, Hcd.
Qed.

Lemma fltb_Fin (a b : Q) : fltb (Fin a) (Fin b) = true <-> (a < b)%Q.
Proof. apply Qltb_lt. Qed.

(** * The heart-rate extractor *)

Section ExtractorFacts.
Context `{Numerics} `{SignalLib}.
Import wesad_prepare.

Definition hr_fields (r : hr_features) : list float64 :=
  [ bpm_avg r; bpm_min r; bpm_max r; bpm_std r; hrv_rmssd r; hrv_sdnn r ].

(** C3. A pulse segment with fewer samples than its sample rate (shorter
    than one second) makes the extractor return the all-undefined result:
    each of the six fields is [nan], none is a number, in particular none
    is zero.  The extractor is a total function: it does not raise. *)
Theorem hr_features_short_segment (bvp : list float64) (fs : Z) :
  (Z.of_nat (length bvp) < fs)%Z ->
  _hr_features_from_bvp bvp fs = undefined_hr
  /\ Forall (fun v => v = NaN) (hr_fields (_hr_features_from_bvp bvp fs))
  /\ Forall (fun v => ~ feq v (Fin 0)) (hr_fields (_hr_features_from_bvp bvp fs)).
Proof.
  intros Hshort.
  assert (E : _hr_features_from_bvp bvp fs = undefined_hr).
  { unfold _hr_features_from_bvp.
    apply Z.ltb_lt in Hshort. now rewrite Hshort. }
  rewrite E. split; [reflexivity|].
  split; repeat constructor; simpl; auto.
Qed.

(** An interval survives the filter of line 79 exactly when it is a finite
    value strictly between 0.3 and 1.8. *)
Lemma rr_plausible_spec (rr : list float64) (r : float64) :
  In r (rr_plausible rr) <->
  In r rr /\ exists q, r = Fin q /\ (0.3 < q)%Q /\ (q < 1.8)%Q.
Proof.
  unfold rr_plausible. rewrite filter_In. split.
  - intros [Hin Hb]. split; [exact Hin|].
    apply andb_prop in Hb. destruct Hb as [Hlo Hhi].
    destruct r as [q| | |]; simpl in *; try discriminate.
    exists q. split; [reflexivity|]. split; now apply Qltb_lt.
  - intros [Hin [q [-> [Hlo Hhi]]]]. split; [exact Hin|].
    apply andb_true_intro. split; simpl; now apply Qltb_lt.
Qed.

(** C4, as the code has it.  The peak gaps are divided by the sample rate,
    and an interval is kept for the BPM/RMSSD/SDNN computation exactly when
    it lies strictly between 0.3 s and 1.8 s: the intervals equal to 0.3 s
    or to 1.8 s are discarded with those outside. *)
Theorem rr_kept_iff_strictly_inside (peaks : list Z) (fs : Z) (r : float64) :
  In r (rr_plausible (rr_seconds peaks fs)) <->
  In r (rr_seconds peaks fs)
  /\ exists q, r = Fin q /\ (0.3 < q)%Q /\ (q < 1.8)%Q.
Proof. apply rr_plausible_spec. Qed.

(** The features computed from the plausible intervals (lines 80-104). *)
Definition hr_of_intervals (rr : list float64) : hr_features :=
  match rr with
  | [] | [_] => undefined_hr
  | r0 :: _ =>
      let bpm := map (fun r => fdiv (Fin 60.0) r) rr in
      let rr_ms := map (fun r => fmul r (Fin 1000.0)) rr in
      let diff_rr := np.diff rr_ms in
      let rmssd :=
        match diff_rr with
        | [] => NaN
        | _ => fsqrt (np.mean (map (fun d => fmul d d) diff_rr))
        end in
      let sdnn := match rr_ms with [] => NaN | _ => np.std rr_ms end in
      let b0 := fdiv (Fin 60.0) r0 in
      mk_hr (np.mean bpm) (np.amin b0 (tl bpm)) (np.amax b0 (tl bpm))
            (np.std bpm) rmssd sdnn
  end.

(** The extractor, stage by stage. *)
Lemma hr_features_unfold (bvp : list float64) (fs : Z) :
  _hr_features_from_bvp bvp fs
  = if (Z.of_nat (length bvp) <? fs)%Z then undefined_hr
    else
      let peaks := find_peaks (normalized bvp) (peak_distance fs) 0.2 in
      if (length peaks <? 2)%nat then undefined_hr
      else hr_of_intervals (rr_plausible (rr_seconds peaks fs)).
Proof. reflexivity. Qed.

End ExtractorFacts.

(** C4, the claim as stated fails.  In [pulse_train], sampled at 5 Hz,
    the beats are 9 samples apart: farther than the detector's minimum
    distance of 2 samples, and each rises more than 0.2 above the rest
    level of the normalised signal, so the detector reports the peaks
    1, 10 and 19.  Both inter-beat intervals are exactly 1.8 s, inside the
    closed interval [0.3, 1.8], and both are discarded: no interval is
    left and the extractor returns the undefined result. *)
Lemma rr_upper_endpoint_discarded :
  (Z.of_nat (length pulse_train) <? 5)%Z = false
  /\ wesad_prepare.peak_distance 5 = 2%Z
  /\ @normalized micro_numerics pulse_train = pulse_norm
  /\ @find_peaks strict_maxima pulse_norm (wesad_prepare.peak_distance 5) 0.2
     = [1; 10; 19]%Z
  /\ np.diffZ [1; 10; 19]%Z = [9; 9]%Z
  /\ forallb (fun p => fltb (Fin 0.2)
                         (fsub (nth p pulse_norm NaN) (nth 0 pulse_norm NaN)))
             [1; 10; 19]%nat = true
  /\ wesad_prepare.rr_seconds [1; 10; 19]%Z 5 = [Fin (9 # 5); Fin (9 # 5)]
  /\ (0.3 <= 9 # 5)%Q /\ (9 # 5 <= 1.8)%Q
  /\ wesad_prepare.rr_plausible (wesad_prepare.rr_seconds [1; 10; 19]%Z 5) = []
  /\ @wesad_prepare._hr_features_from_bvp micro_numerics strict_maxima
       pulse_train 5
     = wesad_prepare.undefined_hr.
Proof.
  assert (Hnorm : @normalized micro_numerics pulse_train = pulse_norm)
    by (vm_compute; reflexivity).
  assert (Hpeaks : @find_peaks strict_maxima pulse_norm
                     (wesad_prepare.peak_distance 5) 0.2 = [1; 10; 19]%Z)
    by (vm_compute; reflexivity).
  split; [reflexivity|].
  split; [reflexivity|].
  split; [exact Hnorm|].
  split; [exact Hpeaks|].
  split; [reflexivity|].
  split; [vm_compute; reflexivity|].
  split; [reflexivity|].
  split; [discriminate|].
  split; [discriminate|].
  split; [reflexivity|].
  rewrite hr_features_unfold, Hnorm. cbv zeta. rewrite Hpeaks. reflexivity.
Qed.

(** At the rate the pipeline uses (64 Hz) no peak gap is exactly 0.3 s or
    1.8 s long, so there the open and the closed reading select the same
    intervals. *)
Lemma rr_no_endpoint_at_64 (d : Z) :
  ~ (inject_Z d / inject_Z 64 == 0.3)%Q /\ ~ (inject_Z d / inject_Z 64 == 1.8)%Q.
Proof.
  split; intro E; unfold Qeq, Qdiv, Qmult, Qinv, inject_Z in E; simpl in E; lia.
Qed.

Lemma hr_features_short_segment_witness :
  (Z.of_nat (length [Fin 1; Fin 2; Fin 3]) < 64)%Z
  /\ @wesad_prepare._hr_features_from_bvp micro_numerics (peaks_at [])
       [Fin 1; Fin 2; Fin 3] 64
     = wesad_prepare.undefined_hr.
Proof.
  split; [simpl; lia|].
  apply (@hr_features_short_segment micro_numerics (peaks_at [])
           [Fin 1; Fin 2; Fin 3] 64).
  simpl; lia.
Defined.

(** * Majority vote *)

Section MajorityFacts.
Import wesad_prepare.

(** The number of occurrences recorded for [v] in a count table. *)
Fixpoint recorded (v : Z) (u : list (Z * nat)) : nat :=
  match u with
  | [] => 0
  | (w, c) :: t => (if (v =? w)%Z then c else 0) + recorded v t
  end.

Definition keys_increasing (u : list (Z * nat)) : Prop :=
  StronglySorted (fun a b => (fst a < fst b)%Z) u.

Lemma recorded_unique_insert (v w : Z) (u : list (Z * nat)) :
  recorded v (np.unique_insert w u)
  = ((if (v =? w)%Z then 1 else 0) + recorded v u)%nat.
Proof.
  induction u as [|[k c] t IH]; simpl.
  - lia.
  - destruct (w <? k)%Z eqn:Hlt; simpl; [lia|].
    destruct (w =? k)%Z eqn:Heq; simpl.
    + apply Z.eqb_eq in Heq. subst k. destruct (v =? w)%Z; lia.
    + rewrite IH. lia.
Qed.

Lemma recorded_unique_table (v : Z) (a : list Z) :
  recorded v (np.unique_table a) = count_occ Z.eq_dec a v.
Proof.
  induction a as [|x t IH]; simpl; [reflexivity|].
  unfold np.unique_table in *. simpl. rewrite recorded_unique_insert, IH.
  destruct (Z.eq_dec x v) as [->|Hne].
  - rewrite Z.eqb_refl. reflexivity.
  - destruct (v =? x)%Z eqn:E; [apply Z.eqb_eq in E; congruence|reflexivity].
Qed.

Lemma unique_insert_keys (w : Z) (u : list (Z * nat)) (p : Z * nat) :
  In p (np.unique_insert w u) -> fst p = w \/ In (fst p) (map fst u).
Proof.
  induction u as [|[k c] t IH]; simpl.
  - intros [<-|[]]. now left.
  - destruct (w <? k)%Z; [|destruct (w =? k)%Z eqn:Heq]; simpl.
    + intros [<-|[<-|Hin]]; simpl; auto. right. right.
      now apply (in_map fst) in Hin.
    + intros [<-|Hin]; simpl; auto. right. right.
      now apply (in_map fst) in Hin.
    + intros [<-|Hin]; simpl; auto.
      destruct (IH Hin); auto.
Qed.

Lemma unique_insert_increasing (w : Z) (u : list (Z * nat)) :
  keys_increasing u -> keys_increasing (np.unique_insert w u).
Proof.
  unfold keys_increasing.
  induction u as [|[k c] t IH]; simpl; intros Hs.
  - repeat constructor.
  - inversion Hs as [|? ? Ht Hall]; subst.
    destruct (w <? k)%Z eqn:Hlt; [|destruct (w =? k)%Z eqn:Heq].
    + apply Z.ltb_lt in Hlt. constructor; [exact Hs|].
      constructor; [exact Hlt|].
      eapply Forall_impl; [|exact Hall]. simpl. intros; lia.
    + constructor; assumption.
    + apply Z.ltb_ge in Hlt. apply Z.eqb_neq in Heq.
      constructor; [now apply IH|].
      apply Forall_forall. intros p Hp.
      destruct (unique_insert_keys _ _ _ Hp) as [->|Hin]; simpl; [lia|].
      apply in_map_iff in Hin. destruct Hin as [p' [Hfst Hin]].
      rewrite Forall_forall in Hall. specialize (Hall _ Hin).
      simpl in Hall. lia.
Qed.

Lemma unique_table_increasing (a : list Z) :
  keys_increasing (np.unique_table a).
Proof.
  induction a; simpl.
  - constructor.
  - now apply unique_insert_increasing.
Qed.

(** In a table with increasing keys, the entry at a position records
    exactly its own count. *)
Lemma recorded_at (u : list (Z * nat)) (j : nat) :
  keys_increasing u -> (j < length u)%nat ->
  recorded (fst (nth j u (0%Z, 0%nat))) u = snd (nth j u (0%Z, 0%nat)).
Proof.
  unfold keys_increasing. revert j.
  induction u as [|[k c] t IH]; simpl; intros j Hs Hj; [lia|].
  inversion Hs as [|? ? Ht Hall]; subst.
  destruct j as [|j]; simpl.
  - rewrite Z.eqb_refl.
    assert (recorded k t = 0%nat) as ->; [|lia].
    clear -Hall. induction t as [|[k' c'] t IH]; simpl; [reflexivity|].
    inversion Hall; subst. simpl in *.
    destruct (k =? k')%Z eqn:E; [apply Z.eqb_eq in E; lia|].
    now rewrite IH.
  - assert (Hj' : (j < length t)%nat) by lia.
    rewrite Forall_forall in Hall.
    specialize (Hall _ (nth_In t (0%Z, 0%nat) Hj')). simpl in Hall.
    destruct (_ =? k)%Z eqn:E; [apply Z.eqb_eq in E; lia|].
    now apply IH.
Qed.

Lemma recorded_positive (v : Z) (u : list (Z * nat)) :
  (0 < recorded v u)%nat ->
  exists j, (j < length u)%nat /\ fst (nth j u (0%Z, 0%nat)) = v.
Proof.
  induction u as [|[k c] t IH]; simpl; intros Hpos; [lia|].
  destruct (v =? k)%Z eqn:E.
  - apply Z.eqb_eq in E. exists 0%nat. simpl. split; [lia|congruence].
  - destruct (IH ltac:(lia)) as [j [Hj Hv]]. exists (S j). simpl.
    split; [lia|exact Hv].
Qed.

Lemma keys_increasing_nth (u : list (Z * nat)) (i j : nat) :
  keys_increasing u -> (i <= j)%nat -> (j < length u)%nat ->
  (fst (nth i u (0%Z, 0%nat)) <= fst (nth j u (0%Z, 0%nat)))%Z.
Proof.
  unfold keys_increasing. revert i j.
  induction u as [|p t IH]; simpl; intros i j Hs Hij Hj; [lia|].
  inversion Hs as [|? ? Ht Hall]; subst.
  destruct i as [|i], j as [|j]; simpl; try lia.
  - rewrite Forall_forall in Hall.
    assert (Hj' : (j < length t)%nat) by lia.
    specialize (Hall _ (nth_In t (0%Z, 0%nat) Hj')). lia.
  - apply IH; [exact Ht|lia|lia].
Qed.

(** [argmax_from] continues a scan whose best entry so far is [best], found
    at [best_i], over the already scanned prefix [p]. *)
Lemma argmax_from_spec (l p : list nat) (best_i best : nat) :
  (best_i < length p)%nat ->
  nth best_i p 0%nat = best ->
  (forall j, (j < length p)%nat -> (nth j p 0 <= best)%nat) ->
  (forall j, (j < best_i)%nat -> (nth j p 0 < best)%nat) ->
  let r := np.argmax_from best_i best (length p) l in
  (r < length (p ++ l))%nat
  /\ (forall j, (j < length (p ++ l))%nat ->
                (nth j (p ++ l) 0 <= nth r (p ++ l) 0)%nat)
  /\ (forall j, (j < r)%nat -> (nth j (p ++ l) 0 < nth r (p ++ l) 0)%nat).
Proof.
  revert p best_i best.
  induction l as [|c t IH]; intros p best_i best Hbi Hb Hle Hlt; simpl.
  - rewrite app_nil_r. rewrite Hb. auto.
  - assert (Hlen : length (p ++ [c]) = S (length p))
      by (rewrite length_app; simpl; lia).
    replace (p ++ c :: t) with ((p ++ [c]) ++ t)
      by (rewrite <- app_assoc; reflexivity).
    destruct (best <? c)%nat eqn:E.
    + apply Nat.ltb_lt in E. rewrite <- Hlen.
      apply IH.
      * lia.
      * rewrite app_nth2, Nat.sub_diag by lia. reflexivity.
      * intros j Hj. rewrite Hlen in Hj.
        destruct (Nat.eq_dec j (length p)) as [->|Hne].
        -- rewrite app_nth2, Nat.sub_diag by lia. simpl. lia.
        -- rewrite app_nth1 by lia. specialize (Hle j ltac:(lia)). lia.
      * intros j Hj. rewrite app_nth1 by lia.
        specialize (Hle j ltac:(lia)). lia.
    + apply Nat.ltb_ge in E. rewrite <- Hlen.
      apply IH.
      * lia.
      * rewrite app_nth1 by lia. exact Hb.
      * intros j Hj. rewrite Hlen in Hj.
        destruct (Nat.eq_dec j (length p)) as [->|Hne].
        -- rewrite app_nth2, Nat.sub_diag by lia. simpl. lia.
        -- rewrite app_nth1 by lia. apply Hle. lia.
      * intros j Hj. rewrite app_nth1 by lia. now apply Hlt.
Qed.

Lemma argmax_spec (l : list nat) :
  l <> [] ->
  exists i, np.argmax l = Ok i
    /\ (i < length l)%nat
    /\ (forall j, (j < length l)%nat -> (nth j l 0 <= nth i l 0)%nat)
    /\ (forall j, (j < i)%nat -> (nth j l 0 < nth i l 0)%nat).
Proof.
  destruct l as [|c t]; [congruence|]. intros _.
  exists (np.argmax_from 0 c 1 t). split; [reflexivity|].
  apply (@argmax_from_spec t [c] 0%nat c); simpl.
  - lia.
  - reflexivity.
  - intros [|j] Hj; [lia|lia].
  - intros j Hj. lia.
Qed.

Lemma unique_table_nonempty (a : list Z) : a <> [] -> np.unique_table a <> [].
Proof.
  destruct a as [|x t]; [congruence|]. intros _. unfold np.unique_table. simpl.
  destruct (fold_right np.unique_insert [] t) as [|[k c] u]; simpl;
    [discriminate|].
  destruct (x <? k)%Z; [discriminate|]. destruct (x =? k)%Z; discriminate.
Qed.

(** C5. On a non-empty label slice the vote returns a code of the slice
    whose number of occurrences is the highest, and among the codes that
    reach that number it returns the smallest. *)
Theorem majority_label_is_first_maximum (labels : list Z) :
  labels <> [] ->
  exists v, _majority_label labels = Ok v
    /\ In v labels
    /\ (forall w, (count_occ Z.eq_dec labels w
                   <= count_occ Z.eq_dec labels v)%nat)
    /\ (forall w, count_occ Z.eq_dec labels w = count_occ Z.eq_dec labels v ->
                  (v <= w)%Z).
Proof.
  intros Hne.
  pose proof (unique_table_increasing labels) as Hinc.
  pose proof (unique_table_nonempty Hne) as Hu.
  set (u := np.unique_table labels) in *.
  assert (Hc : map snd u <> []) by (destruct u; simpl; congruence).
  destruct (argmax_spec Hc) as [i [Hi [Hlt [Hmax Hfirst]]]].
  rewrite length_map in Hlt, Hmax.
  set (d := (0%Z, 0%nat)).
  assert (Hsnd : forall j, nth j (map snd u) 0%nat = snd (nth j u d))
    by (intro j; apply (map_nth snd u d)).
  assert (Hfst : forall j, nth j (map fst u) 0%Z = fst (nth j u d))
    by (intro j; apply (map_nth fst u d)).
  assert (Hrec : forall j, (j < length u)%nat ->
            count_occ Z.eq_dec labels (fst (nth j u d)) = snd (nth j u d)).
  { intros j Hj. rewrite <- recorded_unique_table. fold u.
    now apply recorded_at. }
  assert (Hpos : forall w, (0 < count_occ Z.eq_dec labels w)%nat ->
            exists j, (j < length u)%nat /\ fst (nth j u d) = w).
  { intros w Hw. apply recorded_positive. unfold u.
    now rewrite recorded_unique_table. }
  assert (Hbest : (0 < snd (nth i u d))%nat).
  { destruct labels as [|x t]; [congruence|].
    destruct (Hpos x) as [j [Hj Hx]].
    - simpl. destruct (Z.eq_dec x x); [lia|congruence].
    - specialize (Hmax j Hj). rewrite !Hsnd in Hmax.
      rewrite <- (Hrec j Hj), Hx in Hmax. simpl in Hmax.
      destruct (Z.eq_dec x x); [lia|congruence]. }
  exists (fst (nth i u d)).
  split; [|split; [|split]].
  - unfold _majority_label, np.unique_counts. fold u.
    rewrite Hi. simpl. now rewrite Hfst.
  - apply (count_occ_In Z.eq_dec). rewrite (Hrec i Hlt). exact Hbest.
  - intros w. rewrite (Hrec i Hlt).
    destruct (Nat.eq_dec (count_occ Z.eq_dec labels w) 0) as [->|Hw]; [lia|].
    destruct (Hpos w ltac:(lia)) as [j [Hj <-]].
    rewrite (Hrec j Hj). specialize (Hmax j Hj). now rewrite !Hsnd in Hmax.
  - intros w Hw. rewrite (Hrec i Hlt) in Hw.
    destruct (Hpos w ltac:(lia)) as [j [Hj <-]].
    rewrite (Hrec j Hj) in Hw.
    destruct (Nat.lt_ge_cases j i) as [Hji|Hij].
    + specialize (Hfirst j Hji). rewrite !Hsnd in Hfirst. lia.
    + now apply keys_increasing_nth.
Qed.

End MajorityFacts.

(** The slice of the specification: code 1 five times, code 2 three times. *)
Example majority_label_5_3 :
  wesad_prepare._majority_label [1; 2; 1; 2; 1; 1; 2; 1]%Z = Ok 1%Z.
Proof. reflexivity. Qed.

(** A tie goes to the smaller code, whatever the order of arrival. *)
Example majority_label_tie :
  wesad_prepare._majority_label [2; 1; 2; 1]%Z = Ok 1%Z
  /\ wesad_prepare._majority_label [7; 7; 3; 3; 5]%Z = Ok 3%Z.
Proof. split; reflexivity. Qed.

Lemma majority_label_is_first_maximum_witness :
  [1; 2; 1; 2; 1; 1; 2; 1]%Z <> []
  /\ exists v, wesad_prepare._majority_label [1; 2; 1; 2; 1; 1; 2; 1]%Z = Ok v
       /\ In v [1; 2; 1; 2; 1; 1; 2; 1]%Z.
Proof.
  split; [discriminate|].
  destruct (@majority_label_is_first_maximum [1; 2; 1; 2; 1; 1; 2; 1]%Z)
    as [v [Hv [Hin _]]]; [discriminate|].
  exists v. split; assumption.
Defined.

(** * The harmonised table *)

(** A row all of whose cells are present and finite. *)
Definition row_finite (r : feature_row) : bool :=
  match subject r with Some _ => true | None => false end
  && isfinite (label r)
  && forallb isfinite (features r).

Lemma replace_inf_defined (x : float64) :
  isnan (replace_inf x) = false <-> isfinite x = true.
Proof. destruct x; cbv; split; congruence. Qed.

Lemma replace_inf_finite (x : float64) :
  isfinite x = true -> replace_inf x = x.
Proof. destruct x; cbv; congruence. Qed.

Lemma replace_inf_all_defined (l : list float64) :
  forallb (fun x => negb (isnan x)) (map replace_inf l) = forallb isfinite l.
Proof.
  induction l as [|x t IH]; simpl; [reflexivity|].
  rewrite IH. now destruct x.
Qed.

Lemma replace_inf_all_finite (l : list float64) :
  forallb isfinite l = true -> map replace_inf l = l.
Proof.
  induction l as [|x t IH]; simpl; [reflexivity|].
  intros Hb. apply andb_prop in Hb. destruct Hb as [Hx Ht].
  now rewrite (replace_inf_finite _ Hx), IH.
Qed.

Section HarmonizeFacts.
Context `{Numerics}.
Import merge_local_and_train.

(** Scrubbing the infinities and dropping the undefined rows keeps exactly
    the rows that were finite to begin with, and keeps them as they were. *)
Lemma harmonize_is_filter (combined : list feature_row) :
  harmonize combined = filter row_finite combined.
Proof.
  unfold harmonize.
  induction combined as [|r t IH]; simpl; [reflexivity|].
  rewrite IH. unfold is_defined, row_finite. simpl.
  rewrite replace_inf_all_defined.
  destruct r as [s l fs]; simpl.
  destruct s as [s|]; simpl; [|reflexivity].
  destruct l; simpl; try reflexivity.
  destruct (forallb isfinite fs) eqn:Hfs; [|reflexivity].
  now rewrite (replace_inf_all_finite _ Hfs).
Qed.

Definition sixteen (r : feature_row) : Prop :=
  length (features r) = length FEATURE_COLUMNS.

(** A session row that survives the [dropna] of line 135: its three
    averages are defined and its label is in the vocabulary. *)
Definition usable (r : local_row) : bool :=
  negb (isnan (bpm_avg r)) && negb (isnan (gsr_avg r))
  && negb (isnan (temp_avg r))
  && match label_bin r with Some _ => true | None => false end.

(** The session once sorted, normalised and cleaned (lines 118-135). *)
Definition kept_rows (f : session_csv) : list local_row :=
  filter usable (_normalize_local_units (sort_by row_leb (data f))).

(** The table [out] of lines 138-159, one row per kept session row. *)
Definition local_out (f : session_csv) : list feature_row :=
  map (fun ir =>
         mk_feature_row
           (Some ("LOCAL_" ++ stem f)%string)
           (match label_bin (snd ir) with
            | Some b => Fin (inject_Z b) | None => NaN end)
           (map (fun col => nth_cell col (fst ir))
                (feature_columns (kept_rows f))))
      (combine (seq 0 (length (kept_rows f))) (kept_rows f)).

Definition scrub (r : feature_row) : feature_row :=
  mk_feature_row (subject r) (label r) (map replace_inf (features r)).

Lemma build_local_features_unfold (f : session_csv) :
  build_local_features f
  = match filter (fun c => negb (contains (columns f) c)) LOCAL_REQUIRED with
    | _ :: _ => Raise (ValueError (stem f ++ ".csv missing columns"))
    | [] =>
        Ok (filter (fun r => negb (existsb isnan (features r)))
                   (map scrub (local_out f)))
    end.
Proof. reflexivity. Qed.

Lemma Ok_inj {A : Type} (a b : A) : Ok a = Ok b -> a = b.
Proof. intros E. now injection E. Qed.

Lemma build_local_features_sixteen (f : session_csv) (t : list feature_row) :
  build_local_features f = Ok t -> Forall sixteen t.
Proof.
  rewrite build_local_features_unfold.
  destruct (filter _ LOCAL_REQUIRED); [|discriminate].
  intros E. apply Ok_inj in E. subst t.
  apply Forall_forall. intros r Hr.
  apply filter_In in Hr. destruct Hr as [Hr _].
  apply in_map_iff in Hr. destruct Hr as [r1 [<- Hr1]].
  apply in_map_iff in Hr1. destruct Hr1 as [ir [<- _]].
  unfold sixteen. simpl. rewrite ?length_map. reflexivity.
Qed.

Lemma local_frames_sixteen (fs : list session_csv)
  (frames : list (list feature_row)) :
  local_frames fs = Ok frames -> Forall sixteen (concat frames).
Proof.
  revert frames. induction fs as [|f rest IH]; simpl; intros frames E.
  - injection E as <-. constructor.
  - destruct (build_local_features f) as [t|e] eqn:Ef; simpl in E;
      [|discriminate].
    destruct (local_frames rest) as [ts|e] eqn:Er; simpl in E; [|discriminate].
    injection E as <-. simpl. apply Forall_app. split.
    + eapply build_local_features_sixteen; eassumption.
    + now apply IH.
Qed.

(** C8. Every row of the table that [main] writes and trains on has a
    subject, a finite label and sixteen finite feature values.  The table
    is the concatenation of the reference rows and the session rows with
    the rows holding a missing or infinite cell removed: the rows that
    stay are unchanged, none is filled in. *)
Theorem harmonized_rows_finite (wesad_columns : list string)
  (wesad_df : list feature_row) (local_files : list session_csv)
  (table : list feature_row) :
  Forall sixteen wesad_df ->
  main wesad_columns wesad_df local_files = Ok table ->
  Forall (fun r =>
            (exists s, subject r = Some s)
            /\ isfinite (label r) = true
            /\ length (features r) = 16%nat
            /\ Forall (fun x => isfinite x = true) (features r)) table
  /\ exists frames,
       local_frames local_files = Ok frames
       /\ table = filter row_finite (wesad_df ++ concat frames).
Proof.
  intros Hw E. unfold main in E.
  destruct (filter _ (_ :: _ :: FEATURE_COLUMNS)); [|discriminate].
  destruct local_files as [|f rest]; [discriminate|].
  destruct (local_frames (f :: rest)) as [frames|e] eqn:Ef; simpl in E;
    [|discriminate].
  injection E as <-. rewrite harmonize_is_filter.
  split; [|exists frames; split; reflexivity].
  apply Forall_forall. intros r Hr.
  apply filter_In in Hr. destruct Hr as [Hin Hfin].
  unfold row_finite in Hfin.
  apply andb_prop in Hfin. destruct Hfin as [Hfin Hfeat].
  apply andb_prop in Hfin. destruct Hfin as [Hsub Hlab].
  split; [|split; [|split]].
  - destruct (subject r) as [s|]; [now exists s|discriminate].
  - exact Hlab.
  - assert (Hall : Forall sixteen (wesad_df ++ concat frames)).
    { apply Forall_app. split; [exact Hw|].
      eapply local_frames_sixteen; eassumption. }
    rewrite Forall_forall in Hall. apply (Hall r Hin).
  - apply Forall_forall. intros x Hx.
    rewrite forallb_forall in Hfeat. now apply Hfeat.
Qed.

End HarmonizeFacts.

(** The reference script cleans its table the same way before writing it:
    the rows kept are the rows whose cells are all finite, unchanged. *)
Lemma collate_is_filter (all_rows : list wesad_prepare.row) :
  wesad_prepare.collate all_rows
  = filter (fun r => isfinite (wesad_prepare.window_start_s r)
                     && isfinite (wesad_prepare.window_end_s r)
                     && forallb isfinite (wesad_prepare.features r))
           all_rows.
Proof.
  unfold wesad_prepare.collate.
  induction all_rows as [|r t IH]; simpl; [reflexivity|].
  rewrite IH. unfold wesad_prepare.has_na. simpl.
  destruct r as [s w0 w1 l fs]; simpl.
  assert (Hfs : existsb isnan (map wesad_prepare.replace_inf fs)
                = negb (forallb isfinite fs)).
  { clear. induction fs as [|x u IHu]; simpl; [reflexivity|].
    rewrite IHu. now destruct x. }
  rewrite Hfs.
  destruct w0, w1; simpl; try reflexivity;
    destruct (forallb isfinite fs) eqn:Hf; simpl; try reflexivity.
  f_equal. f_equal. unfold wesad_prepare.replace_inf_row. simpl. f_equal.
  clear -Hf. induction fs as [|x u IHu]; simpl; [reflexivity|].
  simpl in Hf. apply andb_prop in Hf. destruct Hf as [Hx Hu].
  rewrite (IHu Hu). now destruct x.
Qed.

(** * Error propagation in the merge script *)

(** A session file that carries every required column. *)
Definition has_required (f : merge_local_and_train.session_csv) : bool :=
  forallb (contains (merge_local_and_train.columns f))
          merge_local_and_train.LOCAL_REQUIRED.

Definition demo_rows : list merge_local_and_train.local_row :=
  [ merge_local_and_train.mk_local_row (Some 0%Z) (Fin 0) (Fin 70) (Fin 2)
      (Fin 33) "rest";
    merge_local_and_train.mk_local_row (Some 1%Z) (Fin 1) (Fin 71) (Fin 2)
      (Fin 33) " Stress ";
    merge_local_and_train.mk_local_row (Some 2%Z) (Fin 2) NaN (Fin 2)
      (Fin 33) "rest";
    merge_local_and_train.mk_local_row None (Fin 3) (Fin 72) (Fin 2)
      (Fin 33) "walking" ]%string.

(** A well-formed session, two of whose rows are unusable. *)
Definition good_session : merge_local_and_train.session_csv :=
  merge_local_and_train.mk_session "a"
    merge_local_and_train.LOCAL_REQUIRED demo_rows.

(** A session file without its [label] column. *)
Definition bad_session : merge_local_and_train.session_csv :=
  merge_local_and_train.mk_session "b"
    [ "time_iso"; "ts"; "bpm_avg"; "gsr_avg"; "temp_avg" ]%string demo_rows.

Definition wesad_header : list string :=
  ("subject" :: "label" :: merge_local_and_train.FEATURE_COLUMNS)%string.

Definition demo_wesad : list feature_row :=
  [ mk_feature_row (Some "S2"%string) (Fin 0)
      (map (fun z => Fin (inject_Z z))
           [70; 60; 80; 5; 30; 40; 2; 1; 3; 1; 0; 33; 32; 34; 1; 0]%Z);
    mk_feature_row (Some "S3"%string) (Fin 1)
      (PosInf :: map (fun z => Fin (inject_Z z))
           [60; 80; 5; 30; 40; 2; 1; 3; 1; 0; 33; 32; 34; 1; 0]%Z) ].

Lemma filter_negb_nil {A : Type} (p : A -> bool) (l : list A) :
  filter (fun c => negb (p c)) l = [] <-> forallb p l = true.
Proof.
  induction l as [|x t IH]; simpl; [tauto|].
  destruct (p x); simpl; [exact IH|]. split; discriminate.
Qed.

Section PropagationFacts.
Context `{Numerics}.
Import merge_local_and_train.

Lemma build_local_features_ok (f : session_csv) :
  is_ok (build_local_features f) = has_required f.
Proof.
  unfold build_local_features, has_required.
  destruct (filter _ LOCAL_REQUIRED) as [|c t] eqn:E.
  - apply filter_negb_nil in E. now rewrite E.
  - cbn [is_ok]. symmetry. apply not_true_is_false. intro Hall.
    apply filter_negb_nil in Hall. congruence.
Qed.

Lemma build_local_features_raises (f : session_csv) :
  has_required f = false ->
  build_local_features f = Raise (ValueError (stem f ++ ".csv missing columns")).
Proof.
  intros Hf. unfold build_local_features.
  destruct (filter _ LOCAL_REQUIRED) as [|c t] eqn:E; [|reflexivity].
  apply filter_negb_nil in E. unfold has_required in Hf. congruence.
Qed.

Lemma local_frames_ok (fs : list session_csv) :
  is_ok (local_frames fs) = forallb has_required fs.
Proof.
  induction fs as [|f rest IH]; simpl; [reflexivity|].
  rewrite <- build_local_features_ok, <- IH.
  destruct (build_local_features f); simpl; [|reflexivity].
  destruct (local_frames rest); reflexivity.
Qed.

(** The loop stops at the first session file that lacks a column, with that
    file's error, whatever the files before and after it hold. *)
Lemma local_frames_first_failure (before after : list session_csv)
  (f : session_csv) :
  forallb has_required before = true ->
  has_required f = false ->
  local_frames (before ++ f :: after)
  = Raise (ValueError (stem f ++ ".csv missing columns")).
Proof.
  intros Hb Hf. induction before as [|g rest IH]; simpl.
  - now rewrite (build_local_features_raises _ Hf).
  - simpl in Hb. apply andb_prop in Hb. destruct Hb as [Hg Hrest].
    rewrite <- build_local_features_ok in Hg.
    destruct (build_local_features g); simpl; [|discriminate].
    now rewrite (IH Hrest).
Qed.

(** With the reference table complete and at least one session file
    present, the merge succeeds exactly when every session file carries the
    required columns; a file that lacks one ends the run with that file's
    error. *)
Lemma main_ok_iff_all_sessions_well_formed (wesad_columns : list string)
  (wesad_df : list feature_row) (local_files : list session_csv) :
  forallb (contains wesad_columns) ("subject" :: "label" :: FEATURE_COLUMNS)%string
    = true ->
  local_files <> [] ->
  (is_ok (main wesad_columns wesad_df local_files) = true
   <-> forallb has_required local_files = true)
  /\ (forall before f after,
        local_files = before ++ f :: after ->
        forallb has_required before = true ->
        has_required f = false ->
        main wesad_columns wesad_df local_files
        = Raise (ValueError (stem f ++ ".csv missing columns"))).
Proof.
  intros Hw Hne.
  assert (Hmain : main wesad_columns wesad_df local_files
                  = (frames <- local_frames local_files ;;
                     Ok (harmonize (wesad_df ++ concat frames)))).
  { unfold main. apply filter_negb_nil in Hw. rewrite Hw.
    destruct local_files; [congruence|reflexivity]. }
  rewrite Hmain. split.
  - rewrite <- local_frames_ok.
    destruct (local_frames local_files); simpl; tauto.
  - intros before f after E Hb Hf.
    rewrite E, (@local_frames_first_failure before after f Hb Hf). reflexivity.
Qed.

End PropagationFacts.

(** C9, the claim as stated fails.  The well-formed session alone yields a
    table with usable rows; adding a session file that lacks its label
    column ends the whole run with an error, although the same usable data
    remains. *)
Lemma one_bad_session_aborts_run :
  (exists r t,
      @merge_local_and_train.main micro_numerics wesad_header demo_wesad
        [good_session] = Ok (r :: t))
  /\ @merge_local_and_train.main micro_numerics wesad_header demo_wesad
       [good_session; bad_session]
     = Raise (ValueError "b.csv missing columns").
Proof.
  split; [|vm_compute; reflexivity].
  eexists. eexists. vm_compute. reflexivity.
Qed.

Lemma harmonized_rows_finite_witness :
  Forall sixteen demo_wesad
  /\ exists table,
       @merge_local_and_train.main micro_numerics wesad_header demo_wesad
         [good_session] = Ok table
       /\ length table = 3%nat
       /\ Forall (fun r => Forall (fun x => isfinite x = true) (features r))
                 table.
Proof.
  assert (Hs : Forall sixteen demo_wesad) by (repeat constructor).
  split; [exact Hs|].
  destruct (@merge_local_and_train.main micro_numerics wesad_header demo_wesad
              [good_session]) as [table|e] eqn:E; [|vm_compute in E; discriminate].
  exists table. split; [reflexivity|].
  split; [vm_compute in E; injection E as <-; reflexivity|].
  destruct (@harmonized_rows_finite micro_numerics wesad_header demo_wesad
              [good_session] table Hs E) as [Hall _].
  eapply Forall_impl; [|exact Hall]. simpl. tauto.
Defined.

(** * The group-aware split *)

Lemma in_combine_seq {A : Type} (d : A) (l : list A) (s i : nat) (x : A) :
  In (i, x) (combine (seq s (length l)) l) ->
  (s <= i)%nat /\ (i - s < length l)%nat /\ nth (i - s) l d = x.
Proof.
  revert s. induction l as [|y t IH]; simpl; intros s Hin; [contradiction|].
  destruct Hin as [E|Hin].
  - injection E as <- <-. rewrite Nat.sub_diag. repeat split; lia.
  - destruct (IH _ Hin) as [Hs [Hlt Hnth]].
    replace (i - s)%nat with (S (i - S s)) by lia.
    repeat split; [lia|lia|exact Hnth].
Qed.

(** A row is selected when its group index is one of the chosen ones. *)
Lemma rows_of_spec (group_indices chosen : list nat) (i : nat) :
  In i (sklearn.rows_of group_indices chosen) ->
  (i < length group_indices)%nat /\ In (nth i group_indices 0%nat) chosen.
Proof.
  unfold sklearn.rows_of. intros Hin.
  apply in_map_iff in Hin. destruct Hin as [[j g] [Hj Hin]].
  simpl in Hj. subst j.
  apply filter_In in Hin. destruct Hin as [Hin Hex]. simpl in Hex.
  destruct (in_combine_seq 0%nat _ _ _ _ Hin) as [_ [Hlt Hnth]].
  rewrite Nat.sub_0_r in *. split; [exact Hlt|].
  apply existsb_exists in Hex. destruct Hex as [c [Hc Hgc]].
  apply Nat.eqb_eq in Hgc. rewrite Hnth, Hgc. exact Hc.
Qed.

(** Two disjoint stretches of a list without repetition share no element. *)
Lemma slices_disjoint {A : Type} (l : list A) (n m : nat) (x : A) :
  NoDup l -> In x (slice l 0 n) -> In x (slice l n m) -> False.
Proof.
  unfold slice. simpl. intros Hnd Hfront Hback.
  rewrite <- (firstn_skipn n l) in Hnd.
  apply NoDup_app_remove_l in Hnd as Hnd2.
  assert (Hback' : In x (skipn n l)).
  { clear -Hback. revert n m Hback.
    induction l as [|y t IH]; intros n m Hin.
    - rewrite firstn_nil, skipn_nil in Hin. contradiction.
    - destruct m as [|m]; [rewrite firstn_O, skipn_nil in Hin; contradiction|].
      destruct n as [|n]; simpl in *.
      + destruct Hin as [->|Hin]; [now left|].
        right. apply (IH 0%nat m). exact Hin.
      + apply (IH n m). exact Hin. }
  clear Hnd2.
  revert Hnd Hfront Hback'. generalize (firstn n l) (skipn n l).
  intros a b Hnd Ha Hb. induction a as [|y a IH]; simpl in *; [contradiction|].
  inversion Hnd as [|? ? Hnotin Hnd']; subst.
  destruct Ha as [->|Ha].
  - apply Hnotin. apply in_or_app. now right.
  - now apply IH.
Qed.

Section SplitFacts.
Context `{RandomState}.

(** No group has a row on each side of the library's split. *)
Lemma group_shuffle_split_disjoint (groups : list string) (test_size : Q)
  (random_state : Z) (train test : list nat) (i j : nat) :
  sklearn.group_shuffle_split groups test_size random_state = Ok (train, test) ->
  In i train -> In j test ->
  nth i groups ""%string <> nth j groups ""%string.
Proof.
  unfold sklearn.group_shuffle_split.
  destruct (sklearn.validate_shuffle_split _ test_size) as [[n_train n_test]|e];
    simpl; [|discriminate].
  intros E Hi Hj Heq. injection E as <- <-.
  apply rows_of_spec in Hi. apply rows_of_spec in Hj.
  destruct Hi as [Hil Hi], Hj as [Hjl Hj].
  rewrite length_map in Hil, Hjl.
  set (classes := sklearn.classes_of groups) in *.
  set (f := fun g => sklearn.index_of g classes) in *.
  rewrite (nth_indep _ 0%nat (f ""%string)) in Hi
    by (rewrite length_map; assumption).
  rewrite (nth_indep _ 0%nat (f ""%string)) in Hj
    by (rewrite length_map; assumption).
  rewrite (map_nth f) in Hi. rewrite (map_nth f) in Hj. rewrite Heq in Hi.
  eapply slices_disjoint; [|exact Hj|exact Hi].
  eapply Permutation_NoDup;
    [apply Permutation_sym, permutation_shuffles|apply seq_NoDup].
Qed.

(** C2. Whatever the table, the evaluation fraction and the seed, when the
    split succeeds no subject group occurs both among the training rows and
    among the evaluation rows; this holds for the merge script and for the
    stand-alone training script. *)
Theorem split_groups_disjoint (df : list feature_row) (test_size : Q)
  (random_state : Z) (local_weight : Q) :
  (forall p,
      merge_local_and_train.train_combined_split df test_size random_state
        local_weight = Ok p ->
      forall g, In g (merge_local_and_train.g_train p) ->
                In g (merge_local_and_train.g_test p) -> False)
  /\ (forall idx subjects_train subjects_test,
        train_stress_model.main_split df test_size random_state
        = Ok (idx, (subjects_train, subjects_test)) ->
        forall g, In g subjects_train -> In g subjects_test -> False).
Proof.
  split.
  - intros p. unfold merge_local_and_train.train_combined_split.
    destruct (sklearn.group_shuffle_split _ test_size random_state)
      as [[train test]|e] eqn:E; simpl; [|discriminate].
    intros Hp g Htr Hte. injection Hp as <-. simpl in Htr, Hte.
    unfold merge_local_and_train.take in Htr, Hte.
    apply in_map_iff in Htr. destruct Htr as [i [Hgi Hi]].
    apply in_map_iff in Hte. destruct Hte as [j [Hgj Hj]].
    apply (group_shuffle_split_disjoint _ _ _ i j E Hi Hj). congruence.
  - intros idx str ste. unfold train_stress_model.main_split.
    destruct (sklearn.group_shuffle_split _ test_size random_state)
      as [[train test]|e] eqn:E; simpl; [|discriminate].
    intros Hp g Htr Hte. injection Hp as _ <- <-.
    unfold merge_local_and_train.take in Htr, Hte.
    apply in_map_iff in Htr. destruct Htr as [i [Hgi Hi]].
    apply in_map_iff in Hte. destruct Hte as [j [Hgj Hj]].
    apply (group_shuffle_split_disjoint _ _ _ i j E Hi Hj). congruence.
Qed.

End SplitFacts.

Definition demo_table : list feature_row :=
  map (fun s => mk_feature_row (Some s) (Fin 0) [])
      [ "S2"; "LOCAL_a"; "S3"; "S2"; "S4"; "LOCAL_a"; "S3"; "S5" ]%string.

(** On eight rows of five groups with a quarter held out, two groups go to
    the evaluation side and three to the training side. *)
Example split_demo :
  exists p,
    @merge_local_and_train.train_combined_split reversing_state demo_table
      0.25 42 1.75 = Ok p
    /\ merge_local_and_train.g_train p = [ "S2"; "LOCAL_a"; "S3"; "S2"; "LOCAL_a"; "S3" ]%string
    /\ merge_local_and_train.g_test p = [ "S4"; "S5" ]%string
    /\ merge_local_and_train.sample_weight p = [ 1; 1.75; 1; 1; 1.75; 1 ].
Proof. eexists. vm_compute. repeat split; reflexivity. Qed.

Lemma split_groups_disjoint_witness :
  exists p,
    @merge_local_and_train.train_combined_split reversing_state demo_table
      0.25 42 1.75 = Ok p
    /\ forall g, In g (merge_local_and_train.g_train p) ->
                 In g (merge_local_and_train.g_test p) -> False.
Proof.
  destruct (@merge_local_and_train.train_combined_split reversing_state
              demo_table 0.25 42 1.75) as [p|e] eqn:E;
    [|vm_compute in E; discriminate].
  exists p. split; [reflexivity|].
  apply (proj1 (@split_groups_disjoint reversing_state demo_table 0.25 42 1.75)).
  exact E.
Defined.

(** * Rolling statistics of the field builder *)

(** A finite, strictly positive pulse-rate sample. *)
Definition finite_positive (w : float64) : bool :=
  isfinite w && fgtb w (Fin 0).

(** The position of a feature column. *)
Fixpoint position (name : string) (cols : list string) : nat :=
  match cols with
  | [] => 0
  | c :: t => if String.eqb name c then 0 else S (position name t)
  end.

(** The cell of row [i] in the feature column [name]. *)
Definition cell (cols : list (list float64)) (name : string) (i : nat)
  : float64 :=
  merge_local_and_train.nth_cell
    (nth (position name merge_local_and_train.FEATURE_COLUMNS) cols []) i.

Lemma nth_map_seq {A : Type} (g : nat -> A) (n i : nat) (d : A) :
  (i < n)%nat -> nth i (map g (seq 0 n)) d = g i.
Proof.
  intros Hi. rewrite (nth_indep _ d (g 0%nat)) by
    (rewrite length_map, length_seq; exact Hi).
  rewrite (map_nth g). now rewrite seq_nth.
Qed.

Lemma filter_length_le {A : Type} (p q : A -> bool) (l : list A) :
  (forall x, p x = true -> q x = true) ->
  (length (filter p l) <= length (filter q l))%nat.
Proof.
  intros Hpq. induction l as [|x t IH]; simpl; [lia|].
  destruct (p x) eqn:Hp.
  - rewrite (Hpq _ Hp). simpl. lia.
  - destruct (q x); simpl; lia.
Qed.

Lemma valid_rate_finite_positive (w : float64) :
  merge_local_and_train.valid_rate w = true -> finite_positive w = true.
Proof.
  unfold merge_local_and_train.valid_rate, finite_positive.
  destruct w as [q| | |]; simpl; try discriminate.
  unfold fgtb. simpl. rewrite !Qltb_lt. intros Hq.
  apply Qlt_trans with (y := 1e-6); [reflexivity|exact Hq].
Qed.

Section RollingFacts.
Context `{Numerics}.
Import merge_local_and_train.

Lemma rolling_std_filled (s : list float64) (i : nat) :
  (i < length s)%nat ->
  nth_cell (map (fillna (Fin 0.0)) (rolling win 2 agg_std s)) i
  = fillna (Fin 0.0)
      (let obs := filter isfinite (window s i win) in
       if (length obs <? 2)%nat then NaN else agg_std obs).
Proof.
  intros Hi. unfold nth_cell, rolling. rewrite map_map.
  now rewrite nth_map_seq.
Qed.

Lemma rolling_std_short (s : list float64) (i : nat) :
  (i < length s)%nat ->
  (length (filter isfinite (window s i win)) < 2)%nat ->
  nth_cell (map (fillna (Fin 0.0)) (rolling win 2 agg_std s)) i = Fin 0.0.
Proof.
  intros Hi Hshort. rewrite (rolling_std_filled _ Hi). simpl.
  apply Nat.ltb_lt in Hshort. now rewrite Hshort.
Qed.

Lemma rolling_std_defined (s : list float64) (i : nat) :
  (i < length s)%nat ->
  isnan (nth_cell (map (fillna (Fin 0.0)) (rolling win 2 agg_std s)) i) = false.
Proof.
  intros Hi. rewrite (rolling_std_filled _ Hi).
  generalize (let obs := filter isfinite (window s i win) in
              if (length obs <? 2)%nat then NaN else agg_std obs).
  intros x. now destruct x.
Qed.

Lemma rmssd_short (bpm : list float64) (i : nat) :
  (i < length bpm)%nat ->
  (length (filter finite_positive (window bpm i win)) < 3)%nat ->
  nth_cell (_rmssd_from_bpm_series bpm win) i = Fin 0.0.
Proof.
  intros Hi Hshort. unfold nth_cell, _rmssd_from_bpm_series.
  rewrite nth_map_seq by exact Hi. unfold rmssd_of_window.
  pose proof (filter_length_le valid_rate finite_positive (window bpm i win)
                valid_rate_finite_positive) as Hle.
  assert (E : (length (filter valid_rate (window bpm i win)) <? 3)%nat = true)
    by (apply Nat.ltb_lt; lia).
  now rewrite E.
Qed.

Lemma sdnn_short (bpm : list float64) (i : nat) :
  (i < length bpm)%nat ->
  (length (filter finite_positive (window bpm i win)) < 2)%nat ->
  nth_cell (_sdnn_from_bpm_series bpm win) i = Fin 0.0.
Proof.
  intros Hi Hshort. unfold nth_cell, _sdnn_from_bpm_series.
  rewrite nth_map_seq by exact Hi. unfold sdnn_of_window.
  pose proof (filter_length_le valid_rate finite_positive (window bpm i win)
                valid_rate_finite_positive) as Hle.
  assert (E : (length (filter valid_rate (window bpm i win)) <? 2)%nat = true)
    by (apply Nat.ltb_lt; lia).
  now rewrite E.
Qed.

(** The trailing window never holds more samples than rows seen so far. *)
Lemma window_length (s : list float64) (i w : nat) :
  (length (window s i w) <= i + 1)%nat.
Proof.
  unfold window, slice. rewrite length_skipn, length_firstn. lia.
Qed.

(** C7. In the feature columns of a session, at row [i] with its trailing
    window of width 8: each rolling standard deviation (pulse rate,
    conductance, temperature) is 0, and never undefined, when the window
    holds fewer than 2 samples; [hrv_rmssd] is 0 when fewer than 3 finite,
    strictly positive pulse-rate samples lie in the window; [hrv_sdnn] is 0
    when fewer than 2 such samples lie in it. *)
Theorem rolling_insufficient_is_zero (df : list local_row) (i : nat) :
  (i < length df)%nat ->
  let cols := feature_columns df in
  let bpm := window (map bpm_avg df) i win in
  let gsr := window (map gsr_avg df) i win in
  let temp := window (map temp_avg df) i win in
  win = 8%nat
  /\ ((length (filter isfinite bpm) < 2)%nat -> feq (cell cols "bpm_std" i) (Fin 0))
  /\ ((length (filter isfinite gsr) < 2)%nat -> feq (cell cols "gsr_std" i) (Fin 0))
  /\ ((length (filter isfinite temp) < 2)%nat -> feq (cell cols "temp_std" i) (Fin 0))
  /\ isnan (cell cols "bpm_std" i) = false
  /\ isnan (cell cols "gsr_std" i) = false
  /\ isnan (cell cols "temp_std" i) = false
  /\ ((length (filter finite_positive bpm) < 3)%nat ->
      feq (cell cols "hrv_rmssd" i) (Fin 0))
  /\ ((length (filter finite_positive bpm) < 2)%nat ->
      feq (cell cols "hrv_sdnn" i) (Fin 0)).
Proof.
  intros Hi cols bpm gsr temp.
  assert (Hb : (i < length (map bpm_avg df))%nat) by now rewrite length_map.
  assert (Hg : (i < length (map gsr_avg df))%nat) by now rewrite length_map.
  assert (Ht : (i < length (map temp_avg df))%nat) by now rewrite length_map.
  split; [reflexivity|].
  unfold cell, cols, feature_columns; cbn [position FEATURE_COLUMNS nth String.eqb Ascii.eqb Bool.eqb].
  repeat split.
  - intros Hs. now rewrite (rolling_std_short _ Hb Hs).
  - intros Hs. now rewrite (rolling_std_short _ Hg Hs).
  - intros Hs. now rewrite (rolling_std_short _ Ht Hs).
  - exact (rolling_std_defined _ Hb).
  - exact (rolling_std_defined _ Hg).
  - exact (rolling_std_defined _ Ht).
  - intros Hs. now rewrite (rmssd_short _ Hb Hs).
  - intros Hs. now rewrite (sdnn_short _ Hb Hs).
Qed.

(** On the first row of a session the window holds one sample, so the
    three standard deviations and both HRV values are 0. *)
Corollary first_row_spreads_are_zero (df : list local_row) :
  (0 < length df)%nat ->
  let cols := feature_columns df in
  feq (cell cols "bpm_std" 0) (Fin 0) /\ feq (cell cols "gsr_std" 0) (Fin 0)
  /\ feq (cell cols "temp_std" 0) (Fin 0) /\ feq (cell cols "hrv_rmssd" 0) (Fin 0)
  /\ feq (cell cols "hrv_sdnn" 0) (Fin 0).
Proof.
  intros Hpos cols.
  assert (Hw : forall s p, (length (filter p (window s 0 win)) < 2)%nat).
  { intros s p. pose proof (filter_length p (window s 0 win)) as Hf.
    pose proof (window_length s 0 win) as Hl.
    pose proof (filter_length_le p (fun _ => true) (window s 0 win)
                  (fun _ _ => eq_refl)) as Hle.
    assert (Hall : forall l : list float64,
               length (filter (fun _ => true) l) = length l)
      by (induction l; simpl; congruence).
    rewrite Hall in Hle. lia. }
  destruct (rolling_insufficient_is_zero df Hpos)
    as [_ [H1 [H2 [H3 [_ [_ [_ [H4 H5]]]]]]]].
  repeat split; [apply H1|apply H2|apply H3|apply H4|apply H5];
    try apply Hw.
  specialize (Hw (map bpm_avg df) finite_positive). lia.
Qed.

End RollingFacts.

(** The guard of the HRV calculators is 1e-6, not 0: three positive rates
    below it still give 0, while three ordinary rates give a spread. *)
Example rmssd_guard_examples :
  @merge_local_and_train.rmssd_of_window micro_numerics
    [Fin 5e-7; Fin 5e-7; Fin 5e-7] = Fin 0.0
  /\ @merge_local_and_train.rmssd_of_window micro_numerics
       [Fin 60; Fin 75; Fin 50] = Fin 316.227766.
Proof. split; vm_compute; reflexivity. Qed.

Lemma rolling_insufficient_is_zero_witness :
  (1 < length demo_rows)%nat
  /\ (length (filter finite_positive
                (merge_local_and_train.window
                   (map merge_local_and_train.bpm_avg demo_rows) 1
                   merge_local_and_train.win)) < 3)%nat
  /\ feq (cell (@merge_local_and_train.feature_columns micro_numerics
                   demo_rows) "hrv_rmssd" 1) (Fin 0).
Proof.
  assert (Hi : (1 < length demo_rows)%nat) by (simpl; lia).
  assert (Hs : (length (filter finite_positive
                (merge_local_and_train.window
                   (map merge_local_and_train.bpm_avg demo_rows) 1
                   merge_local_and_train.win)) < 3)%nat)
    by (vm_compute; lia).
  split; [exact Hi|]. split; [exact Hs|].
  destruct (@rolling_insufficient_is_zero micro_numerics demo_rows 1 Hi)
    as [_ [_ [_ [_ [_ [_ [_ [Hr _]]]]]]]].
  exact (Hr Hs).
Defined.

(** * Unit normalisation of a field session *)

(** Division of a cell by a positive constant. *)
Definition scale_down (c : Q) (x : float64) : float64 := fdiv x (Fin c).

Lemma scale_down_Fin (c a : Q) :
  (0 < c)%Q -> scale_down c (Fin a) = Fin (a / c).
Proof.
  intros Hc. unfold scale_down, fdiv.
  destruct (Qeq_bool c 0) eqn:E; [|reflexivity].
  apply Qeq_bool_iff in E. rewrite E in Hc. now apply Qlt_irrefl in Hc.
Qed.

Lemma scale_down_inf (c : Q) :
  (0 < c)%Q -> scale_down c PosInf = PosInf /\ scale_down c NegInf = NegInf.
Proof.
  intros Hc. unfold scale_down, fdiv.
  assert (E : Qltb c 0 = false) by (apply Qltb_ge; now apply Qlt_le_weak).
  now rewrite E.
Qed.

Lemma scale_down_isnan (c : Q) (x : float64) :
  (0 < c)%Q -> isnan (scale_down c x) = isnan x.
Proof.
  intros Hc. destruct (scale_down_inf Hc) as [Hp Hn].
  destruct x; [rewrite (scale_down_Fin _ Hc)| |rewrite Hp|rewrite Hn];
    reflexivity.
Qed.

Lemma Qltb_div (c a b : Q) : (0 < c)%Q -> Qltb (a / c) (b / c) = Qltb a b.
Proof.
  intros Hc.
  assert (Hi : (0 < / c)%Q) by now apply Qinv_lt_0_compat.
  destruct (Qltb a b) eqn:E.
  - apply Qltb_lt. apply Qltb_lt in E. unfold Qdiv.
    now apply Qmult_lt_r.
  - apply Qltb_ge. apply Qltb_ge in E. unfold Qdiv.
    now apply Qmult_le_r.
Qed.

Lemma scale_down_fltb (c : Q) (x y : float64) :
  (0 < c)%Q -> fltb (scale_down c x) (scale_down c y) = fltb x y.
Proof.
  intros Hc. destruct (scale_down_inf Hc) as [Hp Hn].
  destruct x, y; rewrite ?(scale_down_Fin _ Hc), ?Hp, ?Hn; simpl;
    try reflexivity.
  now apply Qltb_div.
Qed.

Lemma insert_sorted_map {A : Type} (leb : A -> A -> bool) (f : A -> A)
  (x : A) (l : list A) :
  (forall a b, leb (f a) (f b) = leb a b) ->
  merge_local_and_train.insert_sorted leb (f x) (map f l)
  = map f (merge_local_and_train.insert_sorted leb x l).
Proof.
  intros Hf. induction l as [|y t IH]; simpl; [reflexivity|].
  rewrite Hf. destruct (leb x y); simpl; [reflexivity|]. now rewrite IH.
Qed.

Lemma sort_by_map {A : Type} (leb : A -> A -> bool) (f : A -> A) (l : list A) :
  (forall a b, leb (f a) (f b) = leb a b) ->
  merge_local_and_train.sort_by leb (map f l)
  = map f (merge_local_and_train.sort_by leb l).
Proof.
  intros Hf. unfold merge_local_and_train.sort_by.
  induction l as [|y t IH]; simpl; [reflexivity|].
  rewrite IH. now apply insert_sorted_map.
Qed.

Lemma filter_map_commute {A : Type} (p : A -> bool) (f : A -> A) (l : list A) :
  (forall a, p (f a) = p a) -> filter p (map f l) = map f (filter p l).
Proof.
  intros Hf. induction l as [|y t IH]; simpl; [reflexivity|].
  rewrite Hf, IH. now destruct (p y).
Qed.

Lemma feq_refl (x : float64) : feq x x.
Proof. destruct x; simpl; [apply Qeq_refl|exact I..]. Qed.

(** The mean of two cells commutes with the rescaling. *)
Lemma midpoint_scale_down (c : Q) (x y : float64) :
  (0 < c)%Q ->
  feq (fdiv (fadd (scale_down c x) (scale_down c y)) (Fin 2))
      (scale_down c (fdiv (fadd x y) (Fin 2))).
Proof.
  intros Hc.
  assert (Hc0 : ~ (c == 0)%Q)
    by (intro E; rewrite E in Hc; now apply Qlt_irrefl in Hc).
  assert (E0 : Qeq_bool c 0 = false).
  { destruct (Qeq_bool c 0) eqn:E; [|reflexivity].
    apply Qeq_bool_iff in E. contradiction. }
  assert (E1 : Qltb c 0 = false) by (apply Qltb_ge; now apply Qlt_le_weak).
  unfold scale_down.
  destruct x as [a| | |], y as [b| | |]; simpl;
    rewrite ?E0, ?E1; simpl; rewrite ?E0, ?E1; simpl; try exact I.
  now field.
Qed.

Lemma fleb_scale_down (c : Q) (x y : float64) :
  (0 < c)%Q ->
  merge_local_and_train.fleb (scale_down c x) (scale_down c y)
  = merge_local_and_train.fleb x y.
Proof.
  intros Hc. unfold merge_local_and_train.fleb.
  now rewrite scale_down_fltb.
Qed.

(** Rescaling a column by a positive constant rescales its median. *)
Lemma median_scale_down (c : Q) (col : list float64) :
  (0 < c)%Q ->
  feq (merge_local_and_train.median (map (scale_down c) col))
      (scale_down c (merge_local_and_train.median col)).
Proof.
  intros Hc. unfold merge_local_and_train.median.
  rewrite (filter_map_commute (fun x => negb (isnan x)) (scale_down c))
    by (intro a; now rewrite scale_down_isnan).
  rewrite sort_by_map by (intros a b; now apply fleb_scale_down).
  set (v := merge_local_and_train.sort_by merge_local_and_train.fleb
              (filter (fun x => negb (isnan x)) col)).
  rewrite length_map.
  assert (Hnan : scale_down c NaN = NaN) by reflexivity.
  assert (Hnth : forall k, nth k (map (scale_down c) v) NaN
                           = scale_down c (nth k v NaN)).
  { intro k. rewrite <- Hnan at 1. apply map_nth. }
  destruct (length v =? 0)%nat; [exact I|].
  destruct (Nat.odd (length v)).
  - rewrite Hnth. apply feq_refl.
  - rewrite !Hnth. now apply midpoint_scale_down.
Qed.

Section NormalizeFacts.
Import merge_local_and_train.

Lemma gsr_after_div10 (l : list local_row) :
  map gsr_avg
      (map (fun r => set_temp_avg r (fdiv (temp_avg r) (Fin 10.0))) l)
  = map gsr_avg l.
Proof. rewrite map_map. apply map_ext. now intros []. Qed.

Lemma temp_after_div1000 (l : list local_row) :
  map temp_avg
      (map (fun r => set_gsr_avg r (fdiv (gsr_avg r) (Fin 1000.0))) l)
  = map temp_avg l.
Proof. rewrite map_map. apply map_ext. now intros []. Qed.

Lemma gsr_after_div1000 (l : list local_row) :
  map gsr_avg
      (map (fun r => set_gsr_avg r (fdiv (gsr_avg r) (Fin 1000.0))) l)
  = map (scale_down 1000.0) (map gsr_avg l).
Proof. rewrite !map_map. apply map_ext. now intros []. Qed.

Lemma temp_after_div10 (l : list local_row) :
  map temp_avg
      (map (fun r => set_temp_avg r (fdiv (temp_avg r) (Fin 10.0))) l)
  = map (scale_down 10.0) (map temp_avg l).
Proof. rewrite !map_map. apply map_ext. now intros []. Qed.

(** The conductance column after normalisation: divided by 1000 once when
    its median exceeds 50, untouched otherwise. *)
Lemma normalize_gsr (df : list local_row) :
  map gsr_avg (_normalize_local_units df)
  = if fgtb (median (map gsr_avg df)) (Fin 50)
    then map (scale_down 1000.0) (map gsr_avg df)
    else map gsr_avg df.
Proof.
  unfold _normalize_local_units. cbv zeta.
  set (g := if fgtb (median (map gsr_avg df)) (Fin 50)
            then map (fun r => set_gsr_avg r (fdiv (gsr_avg r) (Fin 1000.0))) df
            else df).
  assert (Hg : map gsr_avg g
               = if fgtb (median (map gsr_avg df)) (Fin 50)
                 then map (scale_down 1000.0) (map gsr_avg df)
                 else map gsr_avg df).
  { unfold g. destruct (fgtb _ _); [|reflexivity]. apply gsr_after_div1000. }
  destruct (fgtb (median (map temp_avg g)) (Fin 80)).
  - destruct (fgtb (median (map temp_avg (map _ g))) (Fin 80));
      now rewrite ?gsr_after_div10.
  - destruct (fgtb (median (map temp_avg g)) (Fin 80));
      now rewrite ?gsr_after_div10.
Qed.

(** The temperature column after normalisation: the rule is tested again
    on the column it has just rescaled. *)
Lemma normalize_temp (df : list local_row) :
  map temp_avg (_normalize_local_units df)
  = let t := map temp_avg df in
    if fgtb (median t) (Fin 80) then
      let t1 := map (scale_down 10.0) t in
      if fgtb (median t1) (Fin 80) then map (scale_down 10.0) t1 else t1
    else t.
Proof.
  unfold _normalize_local_units. cbv zeta.
  set (g := if fgtb (median (map gsr_avg df)) (Fin 50)
            then map (fun r => set_gsr_avg r (fdiv (gsr_avg r) (Fin 1000.0))) df
            else df).
  assert (Hg : map temp_avg g = map temp_avg df).
  { unfold g. destruct (fgtb _ _); [|reflexivity].
    apply temp_after_div1000. }
  rewrite Hg.
  destruct (fgtb (median (map temp_avg df)) (Fin 80)) eqn:E1.
  - rewrite (temp_after_div10 g), Hg.
    destruct (fgtb (median (map (scale_down 10.0) (map temp_avg df))) (Fin 80)).
    + now rewrite temp_after_div10, (temp_after_div10 g), Hg.
    + now rewrite (temp_after_div10 g), Hg.
  - rewrite Hg, E1. exact Hg.
Qed.

Lemma fgtb_feq (x : float64) (a b : Q) :
  feq x (Fin a) -> fgtb x (Fin b) = Qltb b a.
Proof.
  destruct x as [q| | |]; simpl; try contradiction.
  intros E. unfold fgtb. simpl. now rewrite E.
Qed.

Lemma feq_trans (x y z : float64) : feq x y -> feq y z -> feq x z.
Proof.
  destruct x, y, z; simpl; try tauto. apply Qeq_trans.
Qed.

Lemma scale_down_feq (c : Q) (x : float64) (a : Q) :
  (0 < c)%Q -> feq x (Fin a) -> feq (scale_down c x) (Fin (a / c)).
Proof.
  intros Hc. destruct x as [q| | |]; intros E; try (now simpl in E).
  rewrite (scale_down_Fin _ Hc). simpl in *. now rewrite E.
Qed.

(** C6. The conductance column is divided by 1000 when, and only when, its
    median exceeds 50, and it is divided once: the rule is not tested again
    on the result.  A column of median 1500 ends with median 1.5.  The
    temperature rule (median above 80, divide by 10) is tested a second
    time on the rescaled column, so the column ends divided by 1, 10 or
    100. *)
Theorem normalize_local_units_rules (df : list local_row) :
  let gsr := map gsr_avg df in
  let temp := map temp_avg df in
  let out := _normalize_local_units df in
  (fgtb (median gsr) (Fin 50) = true ->
   map gsr_avg out = map (scale_down 1000.0) gsr)
  /\ (fgtb (median gsr) (Fin 50) = false -> map gsr_avg out = gsr)
  /\ (feq (median gsr) (Fin 1500) -> feq (median (map gsr_avg out)) (Fin 1.5))
  /\ (fgtb (median temp) (Fin 80) = false -> map temp_avg out = temp)
  /\ (fgtb (median temp) (Fin 80) = true ->
      fgtb (median (map (scale_down 10.0) temp)) (Fin 80) = false ->
      map temp_avg out = map (scale_down 10.0) temp)
  /\ (fgtb (median temp) (Fin 80) = true ->
      fgtb (median (map (scale_down 10.0) temp)) (Fin 80) = true ->
      map temp_avg out
      = map (scale_down 10.0) (map (scale_down 10.0) temp)).
Proof.
  intros gsr temp out. unfold out.
  rewrite normalize_gsr, normalize_temp. fold gsr temp. cbv zeta.
  repeat split.
  - now intros ->.
  - now intros ->.
  - intros Hm. rewrite (@fgtb_feq (median gsr) 1500 50 Hm).
    change (Qltb 50 1500) with true. cbv iota.
    eapply feq_trans; [apply median_scale_down; reflexivity|].
    eapply feq_trans;
      [apply (@scale_down_feq 1000.0 (median gsr) 1500);
       [reflexivity|exact Hm]|].
    reflexivity.
  - now intros ->.
  - now intros -> ->.
  - now intros -> ->.
Qed.

End NormalizeFacts.

Definition session_of (gsr temp : list Z) : list merge_local_and_train.local_row :=
  map (fun gt => merge_local_and_train.mk_local_row None NaN (Fin 70)
                   (Fin (inject_Z (fst gt))) (Fin (inject_Z (snd gt)))
                   "rest"%string)
      (combine gsr temp).

(** A conductance column of median 100000 is divided once and keeps the
    median 100, still above 50; a temperature column of median 3700 is
    divided twice and ends at 37. *)
Example normalize_once_and_twice :
  let out := merge_local_and_train._normalize_local_units
               (session_of [90000; 100000; 110000]%Z [3600; 3700; 3800]%Z) in
  map merge_local_and_train.gsr_avg out
  = [Fin 90.0000; Fin 100.0000; Fin 110.0000]
  /\ feq (merge_local_and_train.median (map merge_local_and_train.gsr_avg out))
         (Fin 100)
  /\ feq (merge_local_and_train.median (map merge_local_and_train.temp_avg out))
         (Fin 37).
Proof. repeat split; vm_compute; reflexivity. Qed.

Lemma normalize_local_units_rules_witness :
  feq (merge_local_and_train.median
         (map merge_local_and_train.gsr_avg
              (session_of [1400; 1500; 1600; 1500]%Z [33; 33; 34; 35]%Z)))
      (Fin 1500)
  /\ feq (merge_local_and_train.median
            (map merge_local_and_train.gsr_avg
               (merge_local_and_train._normalize_local_units
                  (session_of [1400; 1500; 1600; 1500]%Z [33; 33; 34; 35]%Z))))
         (Fin 1.5).
Proof.
  assert (Hm : feq (merge_local_and_train.median
         (map merge_local_and_train.gsr_avg
              (session_of [1400; 1500; 1600; 1500]%Z [33; 33; 34; 35]%Z)))
      (Fin 1500)) by (vm_compute; reflexivity).
  split; [exact Hm|].
  destruct (normalize_local_units_rules
              (session_of [1400; 1500; 1600; 1500]%Z [33; 33; 34; 35]%Z))
    as [_ [_ [Hmed _]]].
  exact (Hmed Hm).
Defined.

(** * The two slope estimators *)






































(** A rising series of four samples: both estimators give slope 3/5. *)
Example slope_demo :
  match wesad_prepare._slope (map (fun z => Fin (inject_Z z)) [2; 3; 3; 4]%Z)
  with
  | Ok m => feq m (Fin 0.6)
  | Raise _ => False
  end
  /\ feq (merge_local_and_train.slope_of_window
            (map (fun z => Fin (inject_Z z)) [2; 3; 3; 4]%Z)) (Fin 0.6).
Proof. split; vm_compute; reflexivity. Qed.


(** * What the merge script drops and what ends it *)

Lemma insert_sorted_perm {A : Type} (leb : A -> A -> bool) (x : A)
  (l : list A) :
  Permutation (merge_local_and_train.insert_sorted leb x l) (x :: l).
Proof.
  induction l as [|y t IH]; simpl; [apply Permutation_refl|].
  destruct (leb x y); [apply Permutation_refl|].
  eapply Permutation_trans; [apply perm_skip, IH|apply perm_swap].
Qed.

Lemma sort_by_perm {A : Type} (leb : A -> A -> bool) (l : list A) :
  Permutation (merge_local_and_train.sort_by leb l) l.
Proof.
  unfold merge_local_and_train.sort_by.
  induction l as [|x t IH]; simpl; [apply Permutation_refl|].
  eapply Permutation_trans; [apply insert_sorted_perm|].
  now apply perm_skip.
Qed.

Lemma filter_length_perm {A : Type} (p : A -> bool) (l l' : list A) :
  Permutation l l' -> length (filter p l) = length (filter p l').
Proof.
  intros Hp. induction Hp as [|x l l' _ IH|x y l|l l' l'' _ IH1 _ IH2];
    simpl.
  - reflexivity.
  - destruct (p x); simpl; congruence.
  - destruct (p x), (p y); reflexivity.
  - congruence.
Qed.

Lemma filter_length_pointwise {A : Type} (p : A -> bool) (g : A -> A)
  (l : list A) :
  (forall a, p (g a) = p a) ->
  length (filter p (map g l)) = length (filter p l).
Proof.
  intros Hg. rewrite (filter_map_commute p g l Hg). apply length_map.
Qed.

Section DroppedRows.
Context `{Numerics}.
Import merge_local_and_train.

Definition features_finite (r : feature_row) : bool :=
  forallb isfinite (features r).

(** The rows one well-formed session contributes: the rows of [out] whose
    sixteen features are all finite. *)
Definition session_frame (f : session_csv) : list feature_row :=
  filter features_finite (local_out f).

Lemma usable_set_gsr (r : local_row) :
  usable (set_gsr_avg r (fdiv (gsr_avg r) (Fin 1000.0))) = usable r.
Proof.
  destruct r as [t s b g tp l]. unfold usable, label_bin. simpl.
  change (fdiv g (Fin 1000.0)) with (scale_down 1000.0 g).
  now rewrite scale_down_isnan.
Qed.

Lemma usable_set_temp (r : local_row) :
  usable (set_temp_avg r (fdiv (temp_avg r) (Fin 10.0))) = usable r.
Proof.
  destruct r as [t s b g tp l]. unfold usable, label_bin. simpl.
  change (fdiv tp (Fin 10.0)) with (scale_down 10.0 tp).
  now rewrite scale_down_isnan.
Qed.

(** Normalising the units neither creates nor removes a usable row. *)
Lemma normalize_usable_count (df : list local_row) :
  length (filter usable (_normalize_local_units df))
  = length (filter usable df).
Proof.
  unfold _normalize_local_units. cbv zeta.
  repeat match goal with
         | |- context [if ?b then _ else _] => destruct b
         end;
    rewrite ?(filter_length_pointwise usable _ _ usable_set_temp),
            ?(filter_length_pointwise usable _ _ usable_set_gsr);
    reflexivity.
Qed.

(** A session yields as many cleaned rows as it has rows whose three
    averages are defined and whose label is in the vocabulary. *)
Lemma kept_rows_count (f : session_csv) :
  length (kept_rows f) = length (filter usable (data f)).
Proof.
  unfold kept_rows. rewrite normalize_usable_count.
  apply filter_length_perm, sort_by_perm.
Qed.

Lemma local_out_length (f : session_csv) :
  length (local_out f) = length (kept_rows f).
Proof.
  unfold local_out. rewrite length_map, length_combine, length_seq.
  apply Nat.min_id.
Qed.

Lemma label_bin_binary (r : local_row) (b : Z) :
  label_bin r = Some b -> b = 0%Z \/ b = 1%Z.
Proof.
  unfold label_bin, label_map. generalize (lower (strip (label_text r))).
  intros k. simpl.
  repeat match goal with
         | |- context [String.eqb k ?c] => destruct (String.eqb k c)
         end; intros E; inversion E; auto.
Qed.

Lemma kept_rows_usable (f : session_csv) (r : local_row) :
  In r (kept_rows f) -> usable r = true.
Proof.
  unfold kept_rows. intros Hin. apply filter_In in Hin. exact (proj2 Hin).
Qed.

Lemma local_out_rows (f : session_csv) (r : feature_row) :
  In r (local_out f) ->
  subject r = Some ("LOCAL_" ++ stem f)%string
  /\ (label r = Fin 0 \/ label r = Fin 1).
Proof.
  unfold local_out. intros Hin.
  apply in_map_iff in Hin. destruct Hin as [[i x] [<- Hin]].
  apply in_combine_r in Hin. apply kept_rows_usable in Hin.
  simpl. split; [reflexivity|].
  unfold usable in Hin. apply andb_prop in Hin. destruct Hin as [_ Hl].
  destruct (label_bin x) as [b|] eqn:Eb; [|discriminate].
  destruct (label_bin_binary _ Eb) as [->| ->]; [now left|now right].
Qed.

Lemma scrub_filter (l : list feature_row) :
  filter (fun r => negb (existsb isnan (features r))) (map scrub l)
  = filter features_finite l.
Proof.
  induction l as [|r t IH]; simpl; [reflexivity|].
  rewrite IH. unfold features_finite.
  assert (E : existsb isnan (map replace_inf (features r))
              = negb (forallb isfinite (features r))).
  { generalize (features r). intros fs.
    induction fs as [|x u IHu]; simpl; [reflexivity|].
    rewrite IHu. now destruct x. }
  rewrite E, negb_involutive.
  destruct (forallb isfinite (features r)) eqn:Hf; [|reflexivity].
  f_equal. unfold scrub. rewrite (replace_inf_all_finite _ Hf).
  now destruct r.
Qed.

Lemma build_local_features_frame (f : session_csv) :
  has_required f = true -> build_local_features f = Ok (session_frame f).
Proof.
  intros Hf. rewrite build_local_features_unfold.
  unfold has_required in Hf. apply filter_negb_nil in Hf. rewrite Hf.
  unfold session_frame. now rewrite scrub_filter.
Qed.

Lemma local_frames_map (fs : list session_csv) :
  forallb has_required fs = true ->
  local_frames fs = Ok (map session_frame fs).
Proof.
  induction fs as [|f rest IH]; intros Hall; [reflexivity|].
  apply andb_prop in Hall. destruct Hall as [Hf Hrest].
  cbn [local_frames]. rewrite (build_local_features_frame _ Hf).
  cbn [bind]. rewrite (IH Hrest). reflexivity.
Qed.

(** C9, as the code has it.  With the reference table complete and at
    least one session file present:
    - a session file that lacks a required column ends the whole run with
      that file's error, whatever the other files hold;
    - the run reaches its merged table exactly when every session file has
      the required columns, whatever their cells hold;
    - in that case nothing is fatal and bad data is dropped: each session
      contributes the rows of its feature table whose features are all
      finite, at most one per session row whose three averages are defined
      and whose label is in the vocabulary, each labelled 0 or 1 under the
      session's subject; and the merged table is the reference rows
      followed by the session rows, without the rows that hold a missing
      or infinite cell. *)
Theorem merge_run_drops_rows_aborts_on_columns (wesad_columns : list string)
  (wesad_df : list feature_row) (local_files : list session_csv) :
  forallb (contains wesad_columns) ("subject" :: "label" :: FEATURE_COLUMNS)%string
    = true ->
  local_files <> [] ->
  (forall before f after,
      local_files = before ++ f :: after ->
      forallb has_required before = true ->
      has_required f = false ->
      main wesad_columns wesad_df local_files
      = Raise (ValueError (stem f ++ ".csv missing columns")))
  /\ (is_ok (main wesad_columns wesad_df local_files) = true
      <-> forallb has_required local_files = true)
  /\ (forallb has_required local_files = true ->
      main wesad_columns wesad_df local_files
      = Ok (filter row_finite
              (wesad_df ++ concat (map session_frame local_files)))
      /\ forall f, In f local_files ->
           build_local_features f = Ok (session_frame f)
           /\ (length (session_frame f)
               <= length (filter usable (data f)))%nat
           /\ Forall (fun r =>
                        subject r = Some ("LOCAL_" ++ stem f)%string
                        /\ (label r = Fin 0 \/ label r = Fin 1)
                        /\ forallb isfinite (features r) = true)
                     (session_frame f)).
Proof.
  intros Hw Hne.
  destruct (@main_ok_iff_all_sessions_well_formed _ wesad_columns wesad_df
              local_files Hw Hne) as [Hiff Hfirst].
  split; [exact Hfirst|]. split; [exact Hiff|].
  intros Hall. split.
  - unfold main. apply filter_negb_nil in Hw. rewrite Hw.
    destruct local_files as [|f0 rest] eqn:El; [congruence|].
    rewrite <- El in *. rewrite (local_frames_map _ Hall). cbn [bind].
    now rewrite harmonize_is_filter.
  - intros f Hin. rewrite forallb_forall in Hall.
    split; [apply build_local_features_frame, Hall, Hin|]. split.
    + rewrite <- kept_rows_count, <- local_out_length.
      unfold session_frame.
      pose proof (filter_length_le features_finite (fun _ => true)
                    (local_out f) (fun _ _ => eq_refl)) as Hle.
      assert (Hid : forall l : list feature_row,
                 length (filter (fun _ => true) l) = length l)
        by (induction l; simpl; congruence).
      rewrite Hid in Hle. exact Hle.
    + apply Forall_forall. intros r Hr. unfold session_frame in Hr.
      apply filter_In in Hr. destruct Hr as [Hr Hfin].
      destruct (local_out_rows _ _ Hr) as [Hs Hl].
      split; [exact Hs|]. split; [exact Hl|exact Hfin].
Qed.

End DroppedRows.

Lemma merge_run_drops_rows_aborts_on_columns_witness :
  forallb (contains wesad_header) wesad_header = true
  /\ [good_session] <> []
  /\ forallb has_required [good_session] = true
  /\ @merge_local_and_train.main micro_numerics wesad_header demo_wesad
       [good_session]
     = Ok (filter row_finite
             (demo_wesad
              ++ concat (map (@session_frame micro_numerics) [good_session])))
  /\ (length (@session_frame micro_numerics good_session) <= 2)%nat.
Proof.
  assert (Hw : forallb (contains wesad_header) wesad_header = true)
    by reflexivity.
  assert (Hne : [good_session] <> []) by discriminate.
  assert (Hall : forallb has_required [good_session] = true) by reflexivity.
  destruct (@merge_run_drops_rows_aborts_on_columns micro_numerics
              wesad_header demo_wesad [good_session] Hw Hne)
    as [_ [_ Hok]].
  destruct (Hok Hall) as [Hmain Hrows].
  destruct (Hrows good_session (or_introl eq_refl)) as [_ [Hlen _]].
  repeat split; try assumption.
Defined.
